(** * ONE: training compiler front end and cker training kernels

    A shallow embedding of

    - [compute/cker/include/cker/train/operation/Loss.h]
      ([square], [MSE], [MSEGrad], [checkValue],
      [CategoricalCrossEntropy], [CategoricalCrossEntropyGrad]),
    - [compute/cker/include/cker/train/operation/BinaryArithmetic.h]
      ([ArithmeticType], [BinaryArithmeticGrad]),
    - [runtime/onert/core/src/compiler/train/TrainingCompiler.cc]
      (the constructor of [TrainingCompiler] and [compile]),

    followed by the properties proved about them.

    Conventions.  A C++ call is a computation in the monad [M St]: it
    takes the mutable state [St] it may touch and returns an [outcome]
    together with the state it leaves behind.  A thrown exception keeps
    the state reached at the [throw]; [Abort] stands for a failed
    [assert] and for undefined behaviour (out-of-bounds access, signed
    overflow), after which nothing more is known.  The element type of
    the kernels is the template parameter [T], kept abstract through the
    class [Scalar]; the [float] in which [MSE] keeps its sum is the
    type [F] of the class [FloatSum].  The cross-entropy kernels hand a
    [T] and a [float] to [std::max] and so are compiled for [float]
    only: what is said of their values is said on binary32. *)

From Stdlib Require Import ZArith Reals Lra Ring.
From Stdlib Require Import Floats.SpecFloat.
From stdpp Require Import base gmap strings list sorting.

Local Open Scope Z_scope.

(** ** Outcomes and the state-and-exception monad *)

Inductive error : Type :=
| runtime_error (what : string)
| length_error
| out_of_range.

Inductive outcome (A : Type) : Type :=
| Ok (a : A)
| Throw (e : error)
| Abort.
Arguments Ok {A} a.
Arguments Throw {A} e.
Arguments Abort {A}.

Definition M (St A : Type) : Type := St → outcome A * St.

#[global] Instance M_ret {St} : MRet (M St) :=
  λ A a s, (Ok a, s).

#[global] Instance M_bind {St} : MBind (M St) :=
  λ A B f m s,
    match m s with
    | (Ok a, s') => f a s'
    | (Throw e, s') => (Throw e, s')
    | (Abort, s') => (Abort, s')
    end.

Definition throw {St A} (e : error) : M St A := λ s, (Throw e, s).
Definition abort {St A} : M St A := λ s, (Abort, s).
Definition get {St} : M St St := λ s, (Ok s, s).
Definition put {St} (s : St) : M St unit := λ _, (Ok tt, s).
Definition modify {St} (f : St → St) : M St unit := λ s, (Ok tt, f s).

(** [assert(c)] of <cassert>. *)
Definition assert {St} (c : bool) : M St unit :=
  if c then mret tt else abort.

(** Run a computation on the first (second) component of a pair. *)
Definition on_fst {S1 S2 A} (m : M S1 A) : M (S1 * S2) A :=
  λ s, let '(r, s1) := m s.1 in (r, (s1, s.2)).
Definition on_snd {S1 S2 A} (m : M S2 A) : M (S1 * S2) A :=
  λ s, let '(r, s2) := m s.2 in (r, (s.1, s2)).

(** [for (int i = lo; i < lo + n; ++i) a = body(i, a)], [n] iterations. *)
Fixpoint fold_from {St A} (n : nat) (i : Z) (body : Z → A → M St A) (a : A)
  : M St A :=
  match n with
  | O => mret a
  | S n' => a' ← body i a; fold_from n' (i + 1) body a'
  end.

(** [for (int i = 0; i < hi; ++i)] threading a local variable. *)
Definition fold_lt {St A} (hi : Z) (body : Z → A → M St A) (a : A) : M St A :=
  fold_from (Z.to_nat hi) 0 body a.

(** [for (int i = 0; i < hi; ++i) body(i)]. *)
Definition for_lt {St} (hi : Z) (body : Z → M St unit) : M St unit :=
  fold_lt hi (λ i _, body i) tt.

(** A callee whose outcome does not depend on the state. *)
Definition lift {St A} (o : outcome A) : M St A := λ s, (o, s).

(** Range-[for] over a container, with and without a local variable. *)
Fixpoint fold_each {St A B} (l : list A) (body : A → B → M St B) (b : B)
  : M St B :=
  match l with
  | [] => mret b
  | x :: l' => b' ← body x b; fold_each l' body b'
  end.

Definition for_each {St A} (l : list A) (body : A → M St unit) : M St unit :=
  fold_each l (λ x _, body x) tt.

(** Entries of an index-keyed table, in index order. *)
Definition key_le {V} (a b : nat * V) : Prop := (a.1 ≤ b.1)%nat.
#[global] Instance key_le_dec {V} (a b : nat * V) : Decision (key_le a b) :=
  decide (a.1 ≤ b.1)%nat.
Definition entries {V} (m : gmap nat V) : list (nat * V) :=
  merge_sort key_le (map_to_list m).

(** The (32-bit) [int] of the target; signed overflow is undefined. *)
Definition INT_MIN : Z := - 2 ^ 31.
Definition INT_MAX : Z := 2 ^ 31 - 1.
Definition in_int (z : Z) : bool := (INT_MIN <=? z) && (z <=? INT_MAX).
Definition int {St} (z : Z) : M St Z :=
  if in_int z then mret z else abort.

(** [data[i]] on a read-only array and [data[i] = x] on a buffer. *)
Definition read {St A} (data : list A) (i : Z) : M St A :=
  if i <? 0 then abort
  else match data !! Z.to_nat i with
       | Some x => mret x
       | None => abort
       end.

Definition write {A} (i : Z) (x : A) : M (list A) unit :=
  λ buf,
    if (0 <=? i) && (i <? Z.of_nat (length buf))
    then (Ok tt, <[Z.to_nat i := x]> buf)
    else (Abort, buf).

(** ** The cker kernels *)

Module cker.

(** The arithmetic the kernels use on their element type [T]: the
    literal [0.f], the conversion of an [int], the constant
    [static_cast<float>(1.0e-20)], the operators and the comparisons. *)
Class Scalar (T : Type) : Type := {
  fzero : T;
  of_int : Z → T;
  eps : T;
  fadd : T → T → T;
  fsub : T → T → T;
  fmul : T → T → T;
  fdiv : T → T → T;
  fneg : T → T;
  flt : T → T → bool;
  feq : T → T → bool;
}.

(** [MSE] keeps its running sum in a [float] whatever [T] is.  [F]
    stands for [float]; [add_assign sum x] is [sum += x] for an [x] of
    type [T] (the sum is taken in the common type of the two and
    converted back to [float]), and [static_cast] is [static_cast<T>]
    of a [float]. *)
Class FloatSum (F T : Type) : Type := {
  add_assign : F → T → F;
  static_cast : F → T;
}.

(** Modelled from the spec: [cker/Shape.h] is not part of the sources;
    a shape is "rank + per-axis extents".  [Dims] of an axis the shape
    does not have is outside its contract. *)
Definition Shape : Type := list Z.

Definition DimensionsCount (s : Shape) : Z := Z.of_nat (length s).

Definition Dims {St} (s : Shape) (i : Z) : M St Z := read s i.

Definition FlatSize (s : Shape) : Z := foldr Z.mul 1 s.

Definition FlatSizeSkipDim {St} (s : Shape) (skip_dim : Z) : M St Z :=
  if (0 <=? skip_dim) && (skip_dim <? DimensionsCount s)
  then mret (foldr Z.mul 1 (delete (Z.to_nat skip_dim) s))
  else abort.

Definition shape_ne (a b : Shape) : bool := bool_decide (a ≠ b).

Section kernels.
Context {T : Type} `{Scalar T}.

(** [std::log], from the C library. *)
Variable log : T → T.

Definition fgt (a b : T) : bool := flt b a.
Definition fne (a b : T) : bool := negb (feq a b).
(** [std::max(a, b)] is [(a < b) ? b : a]. *)
Definition fmax (a b : T) : T := if flt a b then b else a.

Definition square (value : T) : T := fmul value value.

(** [b * size + i] in [int]. *)
Definition offset {St} (b size i : Z) : M St Z :=
  bs ← int (b * size); int (bs + i).

Definition MSE {F : Type} `{Scalar F} `{FloatSum F T}
    (y_pred_shape : Shape) (y_pred_data : list T)
    (y_true_shape : Shape) (y_true_data : list T)
    (output_shape : Shape) : M (list T) unit :=
  if negb (DimensionsCount output_shape =? 1) then
    throw (runtime_error "cker::MSE: output dimension count should be 1")
  else
    out0 ← Dims output_shape 0;
    pred0 ← Dims y_pred_shape 0;
    if negb (out0 =? pred0) then
      throw (runtime_error
               "cker::MSE: output and y_pred do not have the same batch")
    else if shape_ne y_pred_shape y_true_shape then
      throw (runtime_error "cker::MSE: y_pred_shape != y_true_shape")
    else
      batch ← Dims y_pred_shape 0;
      size ← FlatSizeSkipDim y_pred_shape 0;
      size ← int size;
      for_lt batch (λ b,
        (* float sum = 0.f; *)
        sum ← fold_lt size (λ i sum,
                 idx ← offset b size i;
                 p ← read y_pred_data idx;
                 t ← read y_true_data idx;
                 mret (add_assign sum (square (fsub p t)))) (fzero : F);
        (* static_cast<T>(sum / size) *)
        write b (static_cast (fdiv sum (of_int size)))).

Definition MSEGrad (y_pred_shape : Shape) (y_pred_data : list T)
    (y_true_shape : Shape) (y_true_data : list T)
    (grad_shape : Shape) : M (list T) unit :=
  if shape_ne y_pred_shape y_true_shape then
    throw (runtime_error "cker::MSEGrad: y_pred_shape != y_true_shape")
  else if shape_ne y_pred_shape grad_shape then
    throw (runtime_error "cker::MSEGrad: y_pred_shape != grad_shape")
  else
    size ← int (FlatSize grad_shape);
    for_lt size (λ i,
      t ← read y_true_data i;
      p ← read y_pred_data i;
      write i (fdiv (fmul (of_int (-2)) (fsub t p)) (of_int size))).

Fixpoint checkValue_from {St} (n : nat) (i : Z) (data : list T)
    (min max : T) : M St bool :=
  match n with
  | O => mret true
  | S n' =>
      x ← read data i;
      if fgt x max || flt x min then mret false
      else checkValue_from n' (i + 1) data min max
  end.

Definition checkValue {St} (data : list T) (size : Z) (min max : T)
  : M St bool :=
  checkValue_from (Z.to_nat size) 0 data min max.

(** [sum[b] += x] on the local [std::vector<T> sum]. *)
Definition add_at {St} (sum : list T) (b : Z) (x : T) : M St (list T) :=
  old ← read sum b; mret (<[Z.to_nat b := fadd old x]> sum).

Definition CategoricalCrossEntropy (y_pred_data y_true_data : list T)
    (batch_size input_size : Z) : M (list T) unit :=
  let y_prob_data := y_pred_data in
  n ← int (input_size * batch_size);
  ok ← checkValue y_pred_data n (of_int 0) (of_int 1);
  if negb ok then
    throw (runtime_error
             "cker::CategoricalCrossEntropy: y_pred data is not logit data.")
  else
    (* std::vector<T> sum(batch_size, 0.f); *)
    sum ← (if batch_size <? 0 then throw length_error
           else mret (replicate (Z.to_nat batch_size) fzero));
    sum ← fold_lt batch_size (λ b sum,
             b_offset ← int (b * input_size);
             fold_lt input_size (λ i sum,
               idx ← int (b_offset + i);
               t ← read y_true_data idx;
               if fne t (of_int 0) then
                 p ← read y_prob_data idx;
                 add_at sum b (fmul (fneg (log (fmax p eps))) t)
               else mret sum) sum) sum;
    (* std::accumulate(sum.begin(), sum.end(), 0.f) *)
    write 0 (fdiv (foldl fadd fzero sum) (of_int batch_size)).

Definition CategoricalCrossEntropyGrad (y_pred_data y_true_data : list T)
    (batch_size input_size : Z) : M (list T) unit :=
  n ← int (input_size * batch_size);
  ok ← checkValue y_pred_data n (of_int 0) (of_int 1);
  if negb ok then
    throw (runtime_error
        "cker::CategoricalCrossEntropyGrad: y_pred data is not logit data.")
  else
    for_lt batch_size (λ b,
      b_offset ← int (b * input_size);
      for_lt input_size (λ i,
        idx ← int (b_offset + i);
        t ← read y_true_data idx;
        p ← read y_pred_data idx;
        write idx (fneg (fdiv t (fmax p eps))))).

(** Row-major coordinates of a flat index, and back. *)
Fixpoint unravel (s : Shape) (i : Z) : list Z :=
  match s with
  | [] => []
  | _ :: s' => i / FlatSize s' :: unravel s' (i mod FlatSize s')
  end.

Definition ravel (s : Shape) (coords : list Z) : Z :=
  foldl (λ acc dc, acc * dc.1 + dc.2) 0 (zip s coords).

(** The element of the operand that an element of the incoming gradient
    contributes to: the leading axes the operand lacks are dropped, and
    along an axis of extent 1 every coordinate goes to 0. *)
Definition reduced_index (in_shape out_shape : Shape) (i : Z) : Z :=
  let lead := (length in_shape - length out_shape)%nat in
  ravel out_shape
    (zip_with (λ d c, if d =? 1 then 0 else c) out_shape
       (drop lead (unravel in_shape i))).

Definition reducible (in_shape out_shape : Shape) : bool :=
  let lead := (length in_shape - length out_shape)%nat in
  bool_decide (length out_shape ≤ length in_shape)%nat
  && forallb (λ d, 0 <? d) in_shape
  && bool_decide
       (Forall2 (λ di do, do = di ∨ do = 1) (drop lead in_shape) out_shape).

Definition accumulate (acc : option T) (x : T) : option T :=
  match acc with
  | None => Some x
  | Some a => Some (fadd a x)
  end.

(** Modelled from the spec: [cker/operation/BroadcastTo.h] is not part
    of the sources.  For the gradient of an addition the spec describes
    the call as the "reduction-broadcast of the upstream gradient" back
    to the shape of an operand: the output has the operand's shape, the
    axes the operand lacks or has with extent 1 are summed over, the
    others are kept.  Shapes that do not fit are outside the contract. *)
Definition BroadcastTo (input_shape : Shape) (input_data : list T)
    (output_shape : Shape) : M (list T) unit :=
  if reducible input_shape output_shape then
    for_lt (FlatSize output_shape) (λ o,
      acc ← fold_lt (FlatSize input_shape) (λ i acc,
               if reduced_index input_shape output_shape i =? o then
                 x ← read input_data i; mret (accumulate acc x)
               else mret acc) None;
      write o (default fzero acc))
  else abort.

Inductive ArithmeticType : Type := kAdd | kSub | kMul | kDiv.

(** The state is the pair of buffers [lhs_grad_data], [rhs_grad_data]. *)
Definition BinaryArithmeticGrad (incoming_shape : Shape)
    (incoming_data : list T) (lhs_grad_shape rhs_grad_shape : Shape)
    (arithmetic_type : ArithmeticType) : M (list T * list T) unit :=
  match arithmetic_type with
  | kAdd =>
      on_fst (BroadcastTo incoming_shape incoming_data lhs_grad_shape);;
      on_snd (BroadcastTo incoming_shape incoming_data rhs_grad_shape)
  | kSub | kMul | kDiv =>
      throw (runtime_error "Unsupported Binary Arithmetic Operation")
  end.

End kernels.

End cker.

(** ** The training compiler *)

Module onert.

Abbreviation ModelIndex := nat (only parsing).
Abbreviation SubgraphIndex := nat (only parsing).
Abbreviation OperationIndex := nat (only parsing).

(** Modelled from the spec: [CompilerOptions.h] is not part of the
    sources.  Options are "an immutable configuration snapshot (executor
    kind, profiling flags, minmax-recording path, ...)"; the fields are
    those [compile] reads, under the names it reads them by. *)
Record CompilerOptions : Type := {
  executor : string;
  he_scheduler : bool;
  he_profiling_mode : bool;
  minmax_filepath : string;
  graph_dump_level : Z;
}.

(** The passes [compile] appends to its two [PassRunner]s. *)
Inductive Pass : Type :=
| ConstantOutputPass
| OddOutputPass
| UnusedOperandEliminationPass.

(** What an instrumented run observes, oldest event first. *)
Inductive Event : Type :=
| EvForceInternalOptions
| EvPass (p : Pass) (subg : SubgraphIndex)
| EvConvert (subg : SubgraphIndex) (op : OperationIndex)
| EvLower (subg : SubgraphIndex)
| EvInfer
| EvValidate (subg : SubgraphIndex)
| EvExecutor (subg : SubgraphIndex).

(** The types of the intermediate representation that the compiler only
    passes around. *)
Class IR : Type := {
  IOperation : Type;
  ITrainableOperation : Type;
  Operands : Type;
  TrainingInfo : Type;
  KernelBuilder : Type;
  LoweredTrainableGraph : Type;
  IExecutor : Type;
}.

Section graphs.
Context `{IR}.

(** Modelled from the spec: [ir/Graph.h] is not part of the sources.  A
    graph "owns a set of Operations and Tensors", "referenced by stable
    integer indices". *)
Record Graph : Type := {
  operations : gmap OperationIndex IOperation;
  operands : Operands;
}.

(** Modelled from the spec: [ir/train/TrainableGraph.h] is not part of
    the sources.  A trainable graph is "a Graph augmented with, for each
    original operation index, either the original operation or its
    trainable replacement (same index, replace-in-place, never
    renumber)"; replacing an operation "is a table update". *)
Inductive Node : Type :=
| Original (op : IOperation)
| Replacement (op : ITrainableOperation).

Record TrainableGraph : Type := {
  t_operations : gmap OperationIndex Node;
  t_operands : Operands;
}.

(** [TrainableGraph(const Graph &)]: a copy of the inference graph. *)
Definition TrainableGraph_of (g : Graph) : TrainableGraph :=
  {| t_operations := Original <$> operations g;
     t_operands := operands g |}.

Definition replaceOperation (index : OperationIndex)
    (operation : ITrainableOperation) : M TrainableGraph OperationIndex :=
  λ tg, (Ok index,
         {| t_operations :=
              <[index := Replacement operation]> (t_operations tg);
            t_operands := t_operands tg |}).

Inductive IGraph : Type :=
| AGraph (g : Graph)
| ATrainableGraph (g : TrainableGraph).

(** Modelled from the spec: [ir/Model.h] and [ir/NNPkg.h] are not part
    of the sources.  A model is "one or more named Graphs (subgraphs)",
    a package one or more models, the first of them primary. *)
Record Model : Type := {
  subgraphs : gmap SubgraphIndex IGraph;
  getKernelBuilder : KernelBuilder;
}.

Definition subgraphs_count (m : Model) : nat := size (subgraphs m).

(** [Model::hasOnly<ir::Graph>()]. *)
Definition is_Graph (g : IGraph) : bool :=
  match g with AGraph _ => true | ATrainableGraph _ => false end.
Definition hasOnly_Graph (m : Model) : bool :=
  forallb (λ kv, is_Graph kv.2) (map_to_list (subgraphs m)).

Record NNPkg : Type := {
  primary_model : Model;
  other_models : list Model;
}.

Definition model_count (p : NNPkg) : nat := S (length (other_models p)).

(** [CompilerArtifact] of [Compiler.h]; the tracing context records the
    index set for each lowered graph. *)
Record CompilerArtifact : Type := {
  _executors : gmap (ModelIndex * SubgraphIndex) IExecutor;
  _tracing_ctx : gmap SubgraphIndex SubgraphIndex;
}.

(** The objects a compilation can reach: the package, the option
    objects owned by the vector [copts], and the instrumentation. *)
Record World : Type := {
  nnpkg : NNPkg;
  copts : list (option CompilerOptions);
  trace : list Event;
}.

Record TrainingCompiler : Type := {
  _training_info : TrainingInfo;
}.

(** [_model] and [_options] of a [TrainingCompiler] alias the primary
    model of the package and the object behind [copts[0]]. *)
Definition _model (w : World) : Model := primary_model (nnpkg w).
Definition _options (w : World) : option CompilerOptions :=
  default None (copts w !! 0%nat).

Definition set_options (o : CompilerOptions) (w : World) : World :=
  {| nnpkg := nnpkg w;
     copts := <[0%nat := Some o]> (copts w);
     trace := trace w |}.

Definition set_subgraph (i : SubgraphIndex) (g : IGraph) (w : World)
  : World :=
  {| nnpkg :=
       {| primary_model :=
            {| subgraphs := <[i := g]> (subgraphs (_model w));
               getKernelBuilder := getKernelBuilder (_model w) |};
          other_models := other_models (nnpkg w) |};
     copts := copts w;
     trace := trace w |}.

Definition observe (es : list Event) (w : World) : World :=
  {| nnpkg := nnpkg w; copts := copts w; trace := trace w ++ es |}.

Definition log (e : Event) : M World unit := modify (observe [e]).

End graphs.

(** The collaborators [compile] calls and the sources do not contain:
    the bodies of the passes, the operation converter, lowering, shape
    inference and validation, and the executor factory. *)
Class Collaborators `{IR} : Type := {
  forceInternalOptions : CompilerOptions → CompilerOptions;
  pass_run : Pass → M Graph unit;
  converter : TrainingInfo → IOperation → error + ITrainableOperation;
  lower : TrainableGraph → CompilerOptions → outcome LoweredTrainableGraph;
  infer : gmap SubgraphIndex LoweredTrainableGraph →
          outcome (gmap SubgraphIndex LoweredTrainableGraph);
  validate : LoweredTrainableGraph → outcome unit;
  create_executor : LoweredTrainableGraph → CompilerOptions → KernelBuilder →
                    ModelIndex → outcome IExecutor;
}.

Section compiler.
Context `{Collaborators}.

(** [nnfw::misc::polymorphic_downcast<ir::Graph &>(graph)]. *)
Definition downcast_Graph {St} (g : IGraph) : M St Graph :=
  match g with
  | AGraph g => mret g
  | ATrainableGraph _ => abort
  end.

Definition TrainingCompiler_new (training_info : TrainingInfo)
  : M World TrainingCompiler :=
  w ← get;
  (* _options{copts[0].get()} *)
  match copts w with
  | [] => abort
  | _ :: _ =>
      if bool_decide (1 < model_count (nnpkg w))%nat then
        throw (runtime_error
                 "TrainingCompiler does not support multiple models yet")
      else if bool_decide (1 < subgraphs_count (primary_model (nnpkg w)))%nat
      then
        throw (runtime_error
                 "TrainingCompiler does not support multiple subgraphs yet")
      else mret {| _training_info := training_info |}
  end.

(** One pass of a [PassRunner] on the subgraph [i]: the pass mutates the
    graph in place, also when it fails. *)
Definition run_pass (i : SubgraphIndex) (p : Pass) : M World unit :=
  log (EvPass p i);;
  w ← get;
  match subgraphs (_model w) !! i with
  | Some (AGraph g) =>
      let '(r, g') := pass_run p g in
      put (set_subgraph i (AGraph g') w);; lift r
  | _ => abort
  end.

(** Modelled from the spec: [pass/PassRunner.h] is not part of the
    sources.  [PassRunner{}.append(p1)....run()] "runs each pass's
    mutation exactly once, in list order": each pass works on the graph
    as the previous one left it. *)
Definition PassRunner_run (i : SubgraphIndex) (passes : list Pass)
  : M World unit :=
  for_each passes (run_pass i).

(** The function given to [subg.operations().iterate]: convert one
    operation and put it in the place of the original. *)
Definition convert_operation (this : TrainingCompiler)
    (subg_index : SubgraphIndex) (entry : OperationIndex * IOperation)
    (trainable_subg : TrainableGraph) : M World TrainableGraph :=
  let '(op_index, op) := entry in
  log (EvConvert subg_index op_index);;
  trainable_op ← match converter (_training_info this) op with
                  | inl e => throw e
                  | inr t => mret t
                  end;
  let '(r, trainable_subg) :=
    replaceOperation op_index trainable_op trainable_subg in
  gen_index ← lift r;
  assert (bool_decide (gen_index = op_index));;
  mret trainable_subg.

(** The body of the conversion loop: one subgraph of the inference
    model to a trainable graph. *)
Definition convert_subgraph (this : TrainingCompiler)
    (subg_index : SubgraphIndex) (subg : Graph) : M World TrainableGraph :=
  fold_each (entries (operations subg))
    (convert_operation this subg_index) (TrainableGraph_of subg).

(** [compile].  The tables are walked in index order; logging
    ([verboseOptions], the dot dumps, the operation dumper) has no
    effect on the state modelled here and is left out, and so is
    [_model.reset()], which only drops this compiler's reference to the
    model. *)
Definition compile (this : TrainingCompiler) : M World CompilerArtifact :=
  w ← get;
  match _options w with
  | None => throw (runtime_error "Empty compile option")
  | Some o =>
      (* Mode check *)
      (if he_profiling_mode o then
         if negb (he_scheduler o) then
           throw (runtime_error
             "Heterogeneous scheduler must be enabled during profiling.")
         else if bool_decide (executor o ≠ "Dataflow") then
           throw (runtime_error
             "Profiling mode works only with 'Dataflow' executor")
         else mret tt
       else mret tt);;
      (if negb (bool_decide (minmax_filepath o = "")) then
         if bool_decide (executor o ≠ "Linear") then
           throw (runtime_error
             "Recording minmax works only with Linear executor")
         else mret tt
       else mret tt);;
      log EvForceInternalOptions;;
      modify (set_options (forceInternalOptions o));;
      let o := forceInternalOptions o in
      let custom_kernel_builder := getKernelBuilder (_model w) in
      for_each (entries (subgraphs (_model w))) (λ '(i, graph),
        _ ← downcast_Graph graph;
        (* Mandatory passes *)
        PassRunner_run i [ConstantOutputPass; OddOutputPass];;
        (* Optimizations *)
        PassRunner_run i [UnusedOperandEliminationPass]);;
      w ← get;
      trainable_subgraphs ←
        (if hasOnly_Graph (_model w) then
           (* Create trainable subgraphs by copy and converting
              inference model *)
           fold_each (entries (subgraphs (_model w)))
             (λ '(subg_index, graph) trainable_subgraphs,
                subg ← downcast_Graph graph;
                trainable_subg ← convert_subgraph this subg_index subg;
                mret (<[subg_index := trainable_subg]> trainable_subgraphs))
             (∅ : gmap SubgraphIndex TrainableGraph)
         else throw (runtime_error "TrainingCompiler: Invalid model"));
      (* Lower: Assign backend *)
      '(lowered_subgs, tracing_ctx) ←
        fold_each (entries trainable_subgraphs)
          (λ '(subg_index, trainable_subg) '(lowered_subgs, tracing_ctx),
             log (EvLower subg_index);;
             lowered ← lift (lower trainable_subg o);
             mret (<[subg_index := lowered]> lowered_subgs,
                   <[subg_index := subg_index]> tracing_ctx))
          (∅ : gmap SubgraphIndex LoweredTrainableGraph,
           ∅ : gmap SubgraphIndex SubgraphIndex);
      (* Shape inference: inferers.at(primary_subg_idx)->infer() *)
      lowered_subgs ←
        (if bool_decide (is_Some (lowered_subgs !! 0%nat)) then
           log EvInfer;; lift (infer lowered_subgs)
         else throw out_of_range);
      (* Shape validation *)
      for_each (entries lowered_subgs) (λ '(subg_index, lowered_subg),
        log (EvValidate subg_index);; lift (validate lowered_subg));;
      executors ←
        fold_each (entries lowered_subgs)
          (λ '(subg_index, lowered_subg) executors,
             let model_index : ModelIndex := 0%nat in
             log (EvExecutor subg_index);;
             executor ← lift (create_executor lowered_subg o
                                custom_kernel_builder model_index);
             mret (<[(model_index, subg_index) := executor]> executors))
          (∅ : gmap (ModelIndex * SubgraphIndex) IExecutor);
      mret {| _executors := executors; _tracing_ctx := tracing_ctx |}
  end.

End compiler.

End onert.

(** ** Two element types *)

(** [float] as IEEE 754 binary32, round to nearest even. *)
Module binary32.

Definition prec : Z := 24.
Definition emax : Z := 128.

Definition float : Type := spec_float.

Definition of_Z (z : Z) : float := binary_normalize prec emax z 0 false.

(** [m * 2 ^ e], rounded. *)
Definition of_scaled (m e : Z) : float := binary_normalize prec emax m e false.

(** [static_cast<float>(1.0e-20)] is [0x1e3ce508]. *)
Definition eps_1em20 : float := S754_finite false 12379400 (-90).

(** Zeros of either sign; numbers, as opposed to infinities and NaN;
    and two floats that are the same up to the sign of a zero, as [==]
    has them. *)
Definition is_zero (x : float) : bool :=
  match x with S754_zero _ => true | _ => false end.
Definition is_finite (x : float) : bool :=
  match x with S754_zero _ | S754_finite _ _ _ => true | _ => false end.
Definition same_value (a b : float) : Prop :=
  a = b ∨ (is_zero a = true ∧ is_zero b = true).

#[global] Instance binary32_Scalar : cker.Scalar float := {|
  cker.fzero := S754_zero false;
  cker.of_int := of_Z;
  cker.eps := eps_1em20;
  cker.fadd := SFadd prec emax;
  cker.fsub := SFsub prec emax;
  cker.fmul := SFmul prec emax;
  cker.fdiv := SFdiv prec emax;
  cker.fneg := SFopp;
  cker.flt := SFltb;
  cker.feq := SFeqb;
|}.

(** [std::log] at the arguments the runs of this file pass to it:
    [log(1) = 0], [log(0.5) = -0.6931472] (the float nearest to
    [-ln 2], [0xbf317218]) and [log(NaN) = NaN]. *)
Definition logf (x : float) : float :=
  if SFeqb x (of_Z 1) then S754_zero false
  else if SFeqb x (of_scaled 1 (-1)) then S754_finite true 11629080 (-24)
  else S754_nan.

(** With [T = float] the sum is a float addition and the cast does
    nothing. *)
#[global] Instance binary32_FloatSum : cker.FloatSum float float := {|
  cker.add_assign := SFadd prec emax;
  cker.static_cast := λ x, x;
|}.

End binary32.

(** [double] as IEEE 754 binary64.  A [float] converts to a [double]
    exactly; a [double] converts to a [float] by rounding to nearest
    even. *)
Module binary64.

Definition prec : Z := 53.
Definition emax : Z := 1024.

Inductive double : Type := Double (x : spec_float).

Definition value (d : double) : spec_float := let 'Double x := d in x.

(** The number [x] in the format of precision [prec]. *)
Definition convert (prec emax : Z) (x : spec_float) : spec_float :=
  match x with
  | S754_finite s m e =>
      binary_normalize prec emax (cond_Zopp s (Zpos m)) e s
  | _ => x
  end.

Definition of_float (x : binary32.float) : double :=
  Double (convert prec emax x).
Definition to_float (d : double) : binary32.float :=
  convert binary32.prec binary32.emax (value d).

Definition of_Z (z : Z) : double :=
  Double (binary_normalize prec emax z 0 false).
Definition of_scaled (m e : Z) : double :=
  Double (binary_normalize prec emax m e false).

Definition binop (f : spec_float → spec_float → spec_float)
    (a b : double) : double :=
  Double (f (value a) (value b)).

#[global] Instance binary64_Scalar : cker.Scalar double := {|
  cker.fzero := Double (S754_zero false);
  cker.of_int := of_Z;
  cker.eps := of_float binary32.eps_1em20;
  cker.fadd := binop (SFadd prec emax);
  cker.fsub := binop (SFsub prec emax);
  cker.fmul := binop (SFmul prec emax);
  cker.fdiv := binop (SFdiv prec emax);
  cker.fneg := λ a, Double (SFopp (value a));
  cker.flt := λ a b, SFltb (value a) (value b);
  cker.feq := λ a b, SFeqb (value a) (value b);
|}.

(** With [T = double], [sum += x] adds in [double] and rounds the sum
    to [float]. *)
#[global] Instance binary64_FloatSum
  : cker.FloatSum binary32.float double := {|
  cker.add_assign := λ sum x, to_float (cker.fadd (of_float sum) x);
  cker.static_cast := of_float;
|}.

End binary64.

(** Exact arithmetic on the reals, where [std::log] is [ln]. *)
Module real.

Definition Rltb (a b : R) : bool := if Rlt_dec a b then true else false.
Definition Reqb (a b : R) : bool := if Req_dec_T a b then true else false.

#[global] Instance R_Scalar : cker.Scalar R := {|
  cker.fzero := 0%R;
  cker.of_int := IZR;
  cker.eps := (/ 10 ^ 20)%R;
  cker.fadd := Rplus;
  cker.fsub := Rminus;
  cker.fmul := Rmult;
  cker.fdiv := Rdiv;
  cker.fneg := Ropp;
  cker.flt := Rltb;
  cker.feq := Reqb;
|}.

End real.

(** ** A package to run the compiler on

    Collaborators that do nothing: every pass leaves its graph as it
    is, every operation converts to itself, lowering, inference,
    validation and executor construction succeed. *)
Module fixture.
Import onert.

Definition unit_IR : IR := {|
  IOperation := string;
  ITrainableOperation := string;
  Operands := unit;
  TrainingInfo := unit;
  KernelBuilder := unit;
  LoweredTrainableGraph := unit;
  IExecutor := unit;
|}.

#[local] Existing Instance unit_IR.

Definition idle : Collaborators := {|
  forceInternalOptions := λ o, o;
  pass_run := λ _, mret tt;
  converter := λ _ op, inr op;
  lower := λ _ _, Ok tt;
  infer := λ lowered, Ok lowered;
  validate := λ _, Ok tt;
  create_executor := λ _ _ _ _, Ok tt;
|}.

Definition options (executor : string) (he_scheduler he_profiling_mode : bool)
    (minmax_filepath : string) : CompilerOptions :=
  {| executor := executor;
     he_scheduler := he_scheduler;
     he_profiling_mode := he_profiling_mode;
     minmax_filepath := minmax_filepath;
     graph_dump_level := 0 |}.

(** [Add] at index 0 and [Reshape] at index 5. *)
Definition graph : Graph :=
  {| operations := {[ 0%nat := "Add"; 5%nat := "Reshape" ]};
     operands := tt |}.

Definition model (subgraphs : list (Graph)) : Model :=
  {| subgraphs :=
       list_to_map (imap (λ i g, (i, AGraph g)) subgraphs);
     getKernelBuilder := tt |}.

Definition world (primary : Model) (others : list (Model))
    (o : CompilerOptions) : World :=
  {| nnpkg := {| primary_model := primary; other_models := others |};
     copts := [Some o];
     trace := [] |}.

Definition training_info : TrainingInfo := tt.

Definition this : TrainingCompiler :=
  {| _training_info := training_info |}.

End fixture.

(** Collaborators of which one fails: forcing the options switches the
    heterogeneous scheduler off, and [OddOutputPass] drops the operation
    at index 5 and then throws. *)
Module faulty.
Import onert fixture.
#[local] Existing Instance unit_IR.

Definition odd_output_fails : Collaborators := {|
  forceInternalOptions := λ o,
    options (executor o) false (he_profiling_mode o) (minmax_filepath o);
  pass_run := λ p,
    match p with
    | OddOutputPass =>
        λ g, (Throw (runtime_error "OddOutputPass"),
              {| operations := delete 5%nat (operations g);
                 operands := operands g |})
    | _ => mret tt
    end;
  converter := λ _ op, inr op;
  lower := λ _ _, Ok tt;
  infer := λ lowered, Ok lowered;
  validate := λ _, Ok tt;
  create_executor := λ _ _ _ _, Ok tt;
|}.

(** Collaborators whose converter knows no [Reshape]. *)
Definition reshape_unsupported : Collaborators := {|
  forceInternalOptions := λ o, o;
  pass_run := λ _, mret tt;
  converter := λ _ op,
    if bool_decide (op = "Reshape")
    then inl (runtime_error "Unsupported operation: Reshape")
    else inr op;
  lower := λ _ _, Ok tt;
  infer := λ lowered, Ok lowered;
  validate := λ _, Ok tt;
  create_executor := λ _ _ _ _, Ok tt;
|}.

End faulty.

(** ** Vocabulary of the specification *)

(** Total correctness: from [s] the call returns normally, with a value
    and a final state that satisfy [Q]. *)
Definition returns {St A} (m : M St A) (s : St) (Q : A → St → Prop) : Prop :=
  ∃ a s', m s = (Ok a, s') ∧ Q a s'.

Module spec.
Import cker.

(** "The element count of one batch row, excluding the batch
    dimension." *)
Definition per_batch_count (s : Shape) : Z := FlatSize (tail s).

Section formulas.
Context {T : Type} `{Scalar T}.

(** [-2 * (yTrue[i] - yPred[i]) / size]. *)
Definition MSEGrad_value (size : Z) (t p : T) : T :=
  fdiv (fmul (of_int (-2)) (fsub t p)) (of_int size).

(** The elements of batch row [b] of a tensor whose rows hold [size]
    elements. *)
Definition row (size b : Z) (data : list T) : list T :=
  take (Z.to_nat size) (drop (Z.to_nat (b * size)) data).

(** "The mean of squared elementwise differences" of two rows: the
    differences [p - t], each multiplied by itself in [T], are added up
    in element order in a [float] that starts at [0.f]; the sum is
    divided by the element count of the row, in [float], and the
    quotient converted to [T]. *)
Definition sum_squared_differences {F : Type} `{Scalar F} `{FloatSum F T}
    (ps ts : list T) : F :=
  foldl (λ sum pt,
           add_assign sum (fmul (fsub pt.1 pt.2) (fsub pt.1 pt.2)))
    fzero (zip ps ts).
Definition mean_squared_difference {F : Type} `{Scalar F} `{FloatSum F T}
    (size : Z) (ps ts : list T) : T :=
  static_cast (fdiv (sum_squared_differences ps ts) (of_int size)).

(** [sum(yTrue * log(max(yPred, 1e-20)))] over the first [n]
    elements of the two tensors, and the loss
    [-sum(...) / batchSize]. *)
Definition cross_entropy_sum (log : T → T) (n : Z)
    (y_pred y_true : list T) : T :=
  foldl fadd fzero
    (zip_with (λ t p, fmul t (log (fmax p eps)))
       (take (Z.to_nat n) y_true) (take (Z.to_nat n) y_pred)).
Definition CategoricalCrossEntropy_value (log : T → T)
    (batch_size input_size : Z) (y_pred y_true : list T) : T :=
  fdiv (fneg (cross_entropy_sum log (batch_size * input_size)
                y_pred y_true))
       (of_int batch_size).

(** [CategoricalCrossEntropy] as the formula reads, with no term
    skipped: the loop of the kernel without its test of the label. *)
Definition CategoricalCrossEntropy_all_terms (log : T → T)
    (y_pred_data y_true_data : list T) (batch_size input_size : Z)
  : M (list T) unit :=
  n ← int (input_size * batch_size);
  ok ← checkValue y_pred_data n (of_int 0) (of_int 1);
  if negb ok then
    throw (runtime_error
             "cker::CategoricalCrossEntropy: y_pred data is not logit data.")
  else
    sum ← (if batch_size <? 0 then throw length_error
           else mret (replicate (Z.to_nat batch_size) fzero));
    sum ← fold_lt batch_size (λ b sum,
             b_offset ← int (b * input_size);
             fold_lt input_size (λ i sum,
               idx ← int (b_offset + i);
               t ← read y_true_data idx;
               p ← read y_pred_data idx;
               add_at sum b (fmul (fneg (log (fmax p eps))) t)) sum) sum;
    write 0 (fdiv (foldl fadd fzero sum) (of_int batch_size)).

(** The same sum by index: the term of element [k], and the sum of
    the [n] terms from [lo] on. *)
Definition term (log : T → T) (y_pred y_true : list T) (k : nat) : T :=
  match y_true !! k, y_pred !! k with
  | Some t, Some p => fmul t (log (fmax p eps))
  | _, _ => fzero
  end.
Definition terms (log : T → T) (y_pred y_true : list T) (lo n : nat)
  : T :=
  foldl fadd fzero (term log y_pred y_true <$> seq lo n).

(** What [MSEGrad] leaves in the gradient buffer when every element
    is divided by [size]: the first [n] elements hold the formula,
    the others are as they were. *)
Definition MSEGrad_post (size n : Z) (y_pred y_true buf grad : list T)
  : Prop :=
  length grad = length buf ∧
  (∀ (i : nat) t p,
     Z.of_nat i < n → y_true !! i = Some t → y_pred !! i = Some p →
     grad !! i = Some (MSEGrad_value size t p)) ∧
  (∀ i : nat, n ≤ Z.of_nat i → grad !! i = buf !! i).

(** What [MSE] leaves in the output buffer: one mean per batch row. *)
Definition MSE_post {F : Type} `{Scalar F} `{FloatSum F T}
    (batch size : Z) (y_pred y_true buf out : list T) : Prop :=
  length out = length buf ∧
  (∀ b : nat, Z.of_nat b < batch →
     out !! b = Some (mean_squared_difference size
                        (row size (Z.of_nat b) y_pred)
                        (row size (Z.of_nat b) y_true))) ∧
  (∀ b : nat, batch ≤ Z.of_nat b → out !! b = buf !! b).

(** [x] is outside of [[0, 1]], as [checkValue] tests it. *)
Definition outside_unit (x : T) : Prop :=
  fgt x (of_int 1) = true ∨ flt x (of_int 0) = true.
End formulas.

Section float_formulas.
Import binary32.

(** [x] lies in [[0, 1]]: [0 <= x] and [x <= 1], as IEEE 754 orders
    the floats.  A NaN is ordered with nothing, so it does not. *)
Definition in_unit_interval (x : float) : bool :=
  SFleb (of_Z 0) x && SFleb x (of_Z 1).

(** [max(yPred, 1e-20)]. *)
Definition clamp (p : float) : float :=
  if SFltb p eps_1em20 then eps_1em20 else p.

(** [-sum(yTrue * log(max(yPred, 1e-20))) / batchSize] as the formula
    reads: one sum over the first [batchSize * inputSize] elements, in
    element order from [0.f]. *)
Definition one_pass_loss (log : float → float) (batch_size input_size : Z)
    (y_pred y_true : list float) : float :=
  SFdiv prec emax
    (SFopp
       (foldl (SFadd prec emax) (S754_zero false)
          (zip_with (λ t p, SFmul prec emax t (log (clamp p)))
             (take (Z.to_nat (batch_size * input_size)) y_true)
             (take (Z.to_nat (batch_size * input_size)) y_pred))))
    (of_Z batch_size).

(** The same formula row by row: within a row the terms
    [-log(max(yPred, 1e-20)) * yTrue] of the elements whose label is
    not zero are added in element order from [0.f]; the row sums are
    added in row order from [0.f]; the total is divided by the batch
    size. *)
Definition row_loss (log : float → float) (ps ts : list float) : float :=
  foldl (λ sum pt,
           if SFeqb pt.2 (of_Z 0) then sum
           else SFadd prec emax sum
                  (SFmul prec emax (SFopp (log (clamp pt.1))) pt.2))
    (S754_zero false) (zip ps ts).
Definition row_by_row_loss (log : float → float) (batch_size input_size : Z)
    (y_pred y_true : list float) : float :=
  SFdiv prec emax
    (foldl (SFadd prec emax) (S754_zero false)
       ((λ b : nat, row_loss log (row input_size (Z.of_nat b) y_pred)
                      (row input_size (Z.of_nat b) y_true))
        <$> seq 0 (Z.to_nat batch_size)))
    (of_Z batch_size).

End float_formulas.

(** The errors of the loss kernels, by kind. *)
Definition MSE_shape_mismatch : list error :=
  [runtime_error "cker::MSE: output dimension count should be 1";
   runtime_error "cker::MSE: output and y_pred do not have the same batch";
   runtime_error "cker::MSE: y_pred_shape != y_true_shape"].

Definition MSEGrad_shape_mismatch : list error :=
  [runtime_error "cker::MSEGrad: y_pred_shape != y_true_shape";
   runtime_error "cker::MSEGrad: y_pred_shape != grad_shape"].

(** The errors of the training compiler, by kind. *)
Definition configuration_errors : list error :=
  [runtime_error "Heterogeneous scheduler must be enabled during profiling.";
   runtime_error "Profiling mode works only with 'Dataflow' executor";
   runtime_error "Recording minmax works only with Linear executor"].

Definition unsupported_model_errors : list error :=
  [runtime_error "TrainingCompiler does not support multiple models yet";
   runtime_error "TrainingCompiler does not support multiple subgraphs yet"].

(** The instrumentation of converting the operations [ops] of the
    subgraph [subg]. *)
Definition convert_events {V} (subg : nat) (ops : list (nat * V))
  : list onert.Event :=
  (λ kv, onert.EvConvert subg kv.1) <$> ops.

End spec.

(** ** Vocabulary of the further properties *)

(** Partial correctness: whenever the call returns normally from [s],
    its value and the state it leaves satisfy [Q]. *)
Definition ensures {St A} (m : M St A) (s : St) (Q : A → St → Prop)
  : Prop :=
  ∀ a s', m s = (Ok a, s') → Q a s'.

Section kernel_vocabulary.
Import cker.
Context {T : Type} `{Scalar T}.

(** [x] passes the test of [checkValue]: neither [x > max] nor
    [x < min]. *)
Definition within (min max x : T) : bool :=
  negb (fgt x max || flt x min).

(** [-(yTrue[k] / max(yPred[k], 1e-20))]. *)
Definition CategoricalCrossEntropyGrad_value (t p : T) : T :=
  fneg (fdiv t (fmax p eps)).

(** What [CategoricalCrossEntropyGrad] leaves in the gradient buffer:
    the first [n] elements hold the formula, the others are as they
    were. *)
Definition CategoricalCrossEntropyGrad_post (n : Z)
    (y_pred y_true buf grad : list T) : Prop :=
  length grad = length buf ∧
  (∀ (k : nat) t p,
     Z.of_nat k < n → y_true !! k = Some t → y_pred !! k = Some p →
     grad !! k = Some (CategoricalCrossEntropyGrad_value t p)) ∧
  (∀ k : nat, n ≤ Z.of_nat k → grad !! k = buf !! k).

(** The loss of one batch row as [CategoricalCrossEntropy] accumulates
    it: in element order, from [0.f], the elements with a zero label
    skipped. *)
Definition cross_entropy_row (log : T → T) (ps ts : list T) : T :=
  foldl (λ sum pt,
           if fne pt.2 (of_int 0)
           then fadd sum (fmul (fneg (log (fmax pt.1 eps))) pt.2)
           else sum) fzero (zip ps ts).

(** The value it writes: the row losses added up in row order, from
    [0.f], and divided by the batch size. *)
Definition CategoricalCrossEntropy_rows (log : T → T)
    (batch_size input_size : Z) (y_pred y_true : list T) : list T :=
  (λ b : nat, cross_entropy_row log
                (spec.row input_size (Z.of_nat b) y_pred)
                (spec.row input_size (Z.of_nat b) y_true))
  <$> seq 0 (Z.to_nat batch_size).
Definition CategoricalCrossEntropy_result (log : T → T)
    (batch_size input_size : Z) (y_pred y_true : list T) : T :=
  fdiv (foldl fadd fzero
          (CategoricalCrossEntropy_rows log batch_size input_size
             y_pred y_true))
       (of_int batch_size).

End kernel_vocabulary.

Section compiler_vocabulary.
Import onert.
Context `{IR}.

(** The mode check of [compile], as one test: profiling needs the
    heterogeneous scheduler and the executor "Dataflow", recording
    minmax needs the executor "Linear". *)
Definition mode_check (o : CompilerOptions) : bool :=
  (negb (he_profiling_mode o)
   || (he_scheduler o && bool_decide (executor o = "Dataflow")))
  && (bool_decide (minmax_filepath o = "")
      || bool_decide (executor o = "Linear")).

(** What a compilation leaves alone in the package: the other models,
    the kernel builder, the subgraph indices of the primary model and
    the kind of graph behind each; the instrumentation only grows. *)
Record frame (w w' : World) : Prop := {
  frame_others : other_models (nnpkg w') = other_models (nnpkg w);
  frame_builder :
    getKernelBuilder (_model w') = getKernelBuilder (_model w);
  frame_kinds :
    is_Graph <$> subgraphs (_model w') = is_Graph <$> subgraphs (_model w);
  frame_trace : trace w `prefix_of` trace w';
}.

(** [w'] differs from [w] by graph mutations and instrumentation only;
    a computation [keeps] the world steady when that holds of every
    state it can leave, whatever its outcome. *)
Definition steady (w w' : World) : Prop :=
  frame w w' ∧ copts w' = copts w.
Definition keeps {A} (m : M World A) : Prop :=
  ∀ w, steady w (m w).2.

End compiler_vocabulary.

Section pass_vocabulary.
Import onert.
Context `{Collaborators}.

(** A list of passes on one graph, as a function: the outcome, the
    graph as the last pass that ran left it, and the passes that ran. *)
Fixpoint run_passes (passes : list Pass) (g : Graph)
  : outcome unit * Graph * list Pass :=
  match passes with
  | [] => (Ok tt, g, [])
  | p :: passes' =>
      match pass_run p g with
      | (Ok _, g') =>
          let '(r, g'', ran) := run_passes passes' g' in (r, g'', p :: ran)
      | (r, g') => (r, g', [p])
      end
  end.

Definition pass_events (i : nat) (ran : list Pass) : list Event :=
  (λ p, EvPass p i) <$> ran.

End pass_vocabulary.

(** * Properties *)

(** Membership in a list that is written out. *)
Ltac in_list :=
  repeat first [apply list_elem_of_here | apply list_elem_of_further].

(** ** The monad and its loops *)

Section monad_facts.
Context {St : Type}.

Lemma bind_run {A B} (m : M St A) (f : A → M St B) s :
  (m ≫= f) s =
  match m s with
  | (Ok a, s') => f a s'
  | (Throw e, s') => (Throw e, s')
  | (Abort, s') => (Abort, s')
  end.
Proof. reflexivity. Qed.

Lemma bind_ok {A B} (m : M St A) (f : A → M St B) s a s' :
  m s = (Ok a, s') → (m ≫= f) s = f a s'.
Proof. intros Hm. rewrite bind_run, Hm. reflexivity. Qed.

Lemma bind_throw {A B} (m : M St A) (f : A → M St B) s e s' :
  m s = (Throw e, s') → (m ≫= f) s = (Throw e, s').
Proof. intros Hm. rewrite bind_run, Hm. reflexivity. Qed.

Lemma returns_eq {A} (m : M St A) s a s' (Q : A → St → Prop) :
  m s = (Ok a, s') → Q a s' → returns m s Q.
Proof. intros Hm HQ. exists a, s'. auto. Qed.

Lemma returns_ret {A} (a : A) s (Q : A → St → Prop) :
  Q a s → returns (mret a) s Q.
Proof. intros HQ. exists a, s. split; [reflexivity | exact HQ]. Qed.

Lemma returns_bind {A B} (m : M St A) (f : A → M St B) s Q :
  returns m s (λ a s', returns (f a) s' Q) → returns (m ≫= f) s Q.
Proof.
  intros (a & s' & Hm & b & s'' & Hf & HQ).
  exists b, s''. split; [| exact HQ].
  rewrite (bind_ok _ _ _ _ _ Hm). exact Hf.
Qed.

Lemma returns_mono {A} (m : M St A) s (P Q : A → St → Prop) :
  returns m s P → (∀ a s', P a s' → Q a s') → returns m s Q.
Proof. intros (a & s' & Hm & HP) HPQ. exists a, s'. auto. Qed.

Lemma returns_int z s (Q : Z → St → Prop) :
  INT_MIN ≤ z ≤ INT_MAX → Q z s → returns (int z) s Q.
Proof.
  intros Hz HQ. unfold int, in_int.
  replace ((INT_MIN <=? z) && (z <=? INT_MAX)) with true
    by (symmetry; apply andb_true_iff; split; apply Z.leb_le; lia).
  apply returns_ret, HQ.
Qed.

Lemma returns_read {A} (data : list A) (i : nat) x s (Q : A → St → Prop) :
  data !! i = Some x → Q x s → returns (read data (Z.of_nat i)) s Q.
Proof.
  intros Hx HQ. unfold read.
  destruct (Z.ltb_spec (Z.of_nat i) 0); [lia |].
  rewrite Nat2Z.id, Hx. apply returns_ret, HQ.
Qed.

(** The invariant rule of a counted loop. *)
Lemma returns_fold_from {A} (I : nat → A → St → Prop) n lo
    (body : Z → A → M St A) a s :
  I O a s →
  (∀ k a s, (k < n)%nat → I k a s →
     returns (body (lo + Z.of_nat k) a) s (I (S k))) →
  returns (fold_from n lo body a) s (I n).
Proof.
  revert I lo a s. induction n as [| n IH]; intros I lo a s H0 Hstep.
  - apply returns_ret, H0.
  - simpl. apply returns_bind.
    pose proof (Hstep O a s ltac:(lia) H0) as Hfirst.
    replace (lo + Z.of_nat 0) with lo in Hfirst by lia.
    eapply returns_mono; [exact Hfirst |].
    intros a' s' H1. apply (IH (λ k, I (S k))); [exact H1 |].
    intros k a'' s'' Hk HI.
    replace (lo + 1 + Z.of_nat k) with (lo + Z.of_nat (S k)) by lia.
    apply Hstep; [lia | exact HI].
Qed.

Lemma returns_fold_lt {A} (I : nat → A → St → Prop) hi
    (body : Z → A → M St A) a s :
  I O a s →
  (∀ k a s, (k < Z.to_nat hi)%nat → I k a s →
     returns (body (Z.of_nat k) a) s (I (S k))) →
  returns (fold_lt hi body a) s (I (Z.to_nat hi)).
Proof.
  intros H0 Hstep. unfold fold_lt. apply returns_fold_from; [exact H0 |].
  intros k a' s' Hk HI. apply Hstep; assumption.
Qed.

Lemma returns_for_lt (I : nat → St → Prop) hi (body : Z → M St unit) s :
  I O s →
  (∀ k s, (k < Z.to_nat hi)%nat → I k s →
     returns (body (Z.of_nat k)) s (λ _, I (S k))) →
  returns (for_lt hi body) s (λ _, I (Z.to_nat hi)).
Proof.
  intros H0 Hstep. unfold for_lt.
  apply (returns_fold_lt (λ k _, I k)); [exact H0 |].
  intros k [] s' Hk HI. apply Hstep; assumption.
Qed.

(** Two counted loops that leave the state alone, run side by side. *)
Lemma fold_from_related {A} (R : A → A → Prop) n lo
    (body1 body2 : Z → A → M St A) a1 a2 s :
  R a1 a2 →
  (∀ (k : nat) a1 a2, (k < n)%nat → R a1 a2 →
     ∃ b1 b2, body1 (lo + Z.of_nat k) a1 s = (Ok b1, s) ∧
              body2 (lo + Z.of_nat k) a2 s = (Ok b2, s) ∧ R b1 b2) →
  ∃ r1 r2, fold_from n lo body1 a1 s = (Ok r1, s) ∧
           fold_from n lo body2 a2 s = (Ok r2, s) ∧ R r1 r2.
Proof.
  revert lo a1 a2. induction n as [| n IH]; intros lo a1 a2 HR Hstep.
  - exists a1, a2. auto.
  - destruct (Hstep O a1 a2 ltac:(lia) HR) as (b1 & b2 & H1 & H2 & HR').
    replace (lo + Z.of_nat 0) with lo in H1, H2 by lia.
    destruct (IH (lo + 1) b1 b2 HR') as (r1 & r2 & Hr1 & Hr2 & HRr).
    { intros k c1 c2 Hk Hc.
      replace (lo + 1 + Z.of_nat k) with (lo + Z.of_nat (S k)) by lia.
      apply Hstep; [lia | exact Hc]. }
    exists r1, r2. cbn [fold_from].
    rewrite (bind_ok _ _ _ _ _ H1), (bind_ok _ _ _ _ _ H2). auto.
Qed.

Lemma read_ok {A} (data : list A) (i : nat) x (s : St) :
  data !! i = Some x → read data (Z.of_nat i) s = (Ok x, s).
Proof.
  intros Hx. destruct (returns_read data i x s (λ a s', a = x ∧ s' = s) Hx)
    as (? & ? & Hread & -> & ->); auto.
Qed.

End monad_facts.

Lemma returns_write {A} (i : nat) (x : A) buf (Q : unit → list A → Prop) :
  (i < length buf)%nat → Q tt (<[i := x]> buf) →
  returns (write (Z.of_nat i) x) buf Q.
Proof.
  intros Hi HQ. exists tt, (<[i := x]> buf). split; [| exact HQ].
  unfold write.
  replace ((0 <=? Z.of_nat i) && (Z.of_nat i <? Z.of_nat (length buf)))
    with true
    by (symmetry; apply andb_true_iff; split;
        [apply Z.leb_le | apply Z.ltb_lt]; lia).
  rewrite Nat2Z.id. reflexivity.
Qed.

(** ** The loss kernels *)

Section loss_facts.
Import cker spec.
Context {T : Type} `{Scalar T}.

Lemma shape_ne_false (a b : Shape) : a = b → shape_ne a b = false.
Proof. intros ->. unfold shape_ne. apply bool_decide_eq_false. auto. Qed.

Lemma shape_ne_true (a b : Shape) : a ≠ b → shape_ne a b = true.
Proof. intros Hne. unfold shape_ne. apply bool_decide_eq_true. exact Hne. Qed.

Lemma MSEGrad_mismatch y_pred_shape y_pred y_true_shape y_true grad_shape
    (buf : list T) :
  ¬ (y_pred_shape = y_true_shape ∧ y_pred_shape = grad_shape) →
  ∃ e, e ∈ MSEGrad_shape_mismatch ∧
       MSEGrad y_pred_shape y_pred y_true_shape y_true grad_shape buf
       = (Throw e, buf).
Proof.
  intros Hne. unfold MSEGrad, MSEGrad_shape_mismatch.
  destruct (decide (y_pred_shape = y_true_shape)) as [Heq | Hne1].
  - rewrite (shape_ne_false _ _ Heq).
    rewrite shape_ne_true by (intros Heq2; apply Hne; auto).
    eexists. split; [| reflexivity]. in_list.
  - rewrite (shape_ne_true _ _ Hne1).
    eexists. split; [| reflexivity]. in_list.
Qed.

Lemma MSEGrad_ok shape (y_pred y_true buf : list T) :
  INT_MIN ≤ FlatSize shape ≤ INT_MAX →
  FlatSize shape ≤ Z.of_nat (length y_pred) →
  FlatSize shape ≤ Z.of_nat (length y_true) →
  FlatSize shape ≤ Z.of_nat (length buf) →
  returns (MSEGrad shape y_pred shape y_true shape) buf (λ _ grad,
    length grad = length buf ∧
    (∀ (i : nat) t p,
       Z.of_nat i < FlatSize shape →
       y_true !! i = Some t → y_pred !! i = Some p →
       grad !! i = Some (MSEGrad_value (FlatSize shape) t p)) ∧
    (∀ i : nat, FlatSize shape ≤ Z.of_nat i → grad !! i = buf !! i)).
Proof.
  intros Hint Hp Ht Hb. unfold MSEGrad.
  rewrite !shape_ne_false by reflexivity.
  apply returns_bind, returns_int; [exact Hint |].
  set (size := FlatSize shape) in *.
  pose (I := λ (k : nat) (grad : list T),
    length grad = length buf ∧
    (∀ (i : nat) t p, (i < k)%nat →
       y_true !! i = Some t → y_pred !! i = Some p →
       grad !! i = Some (MSEGrad_value size t p)) ∧
    (∀ i : nat, (k ≤ i)%nat → grad !! i = buf !! i)).
  eapply returns_mono.
  - apply (returns_for_lt I).
    + split; [reflexivity | split]; [intros; lia | intros; reflexivity].
    + intros k grad Hk (Hlen & Hdone & Hrest).
      destruct (lookup_lt_is_Some_2 y_true k ltac:(lia)) as [t Hkt].
      destruct (lookup_lt_is_Some_2 y_pred k ltac:(lia)) as [p Hkp].
      apply returns_bind, (returns_read _ _ t); [exact Hkt |].
      apply returns_bind, (returns_read _ _ p); [exact Hkp |].
      apply returns_write; [lia |].
      split; [rewrite length_insert; exact Hlen | split].
      * intros i t' p' Hi Hit Hip.
        destruct (decide (i = k)) as [-> | Hik].
        -- rewrite list_lookup_insert_eq by lia.
           rewrite Hkt in Hit. rewrite Hkp in Hip.
           injection Hit as <-. injection Hip as <-. reflexivity.
        -- rewrite list_lookup_insert_ne by auto.
           apply Hdone; [lia | assumption | assumption].
      * intros i Hi. rewrite list_lookup_insert_ne by lia.
        apply Hrest. lia.
  - intros [] grad (Hlen & Hdone & Hrest).
    split; [exact Hlen | split].
    + intros i t p Hi. apply Hdone. lia.
    + intros i Hi. apply Hrest. lia.
Qed.

Lemma Dims_0 {St} d (s : Shape) (st : St) : Dims (d :: s) 0 st = (Ok d, st).
Proof. reflexivity. Qed.

Lemma FlatSizeSkipDim_0 {St} d (s : Shape) (st : St) :
  FlatSizeSkipDim (d :: s) 0 st = (Ok (FlatSize s), st).
Proof. reflexivity. Qed.

(** The [size] of [MSE] is the element count of one batch row; it is the
    [size] of [MSEGrad] only when there is a single row. *)
Lemma FlatSizeSkipDim_per_batch_count {St} d (s : Shape) (st : St) :
  FlatSizeSkipDim (d :: s) 0 st = (Ok (per_batch_count (d :: s)), st).
Proof. reflexivity. Qed.

Lemma FlatSize_batch d (s : Shape) :
  FlatSize (d :: s) = d * per_batch_count (d :: s).
Proof. reflexivity. Qed.

Lemma FlatSize_single_batch (s : Shape) :
  FlatSize (1 :: s) = per_batch_count (1 :: s).
Proof. rewrite FlatSize_batch. lia. Qed.

Lemma MSE_mismatch {F : Type} `{Scalar F} `{FloatSum F T}
    batch rest (y_pred : list T) y_true_shape y_true
    output_shape (buf : list T) :
  ¬ (output_shape = [batch] ∧ batch :: rest = y_true_shape) →
  ∃ e, e ∈ MSE_shape_mismatch ∧
       MSE (batch :: rest) y_pred y_true_shape y_true output_shape buf
       = (Throw e, buf).
Proof.
  intros Hne. unfold MSE_shape_mismatch.
  destruct output_shape as [| out0 [| out1 output_shape]].
  - eexists. split; [| reflexivity]. in_list.
  - unfold MSE. change (DimensionsCount [out0] =? 1) with true. cbv iota beta.
    change (negb true) with false. cbv iota.
    rewrite bind_run, Dims_0. cbv iota beta.
    rewrite bind_run, Dims_0. cbv iota beta.
    destruct (Z.eqb_spec out0 batch) as [-> | Hout].
    + change (negb true) with false. cbv iota.
      rewrite shape_ne_true by (intros Heq; apply Hne; auto).
      eexists. split; [| reflexivity]. in_list.
    + eexists. split; [| reflexivity]. in_list.
  - unfold MSE.
    destruct (Z.eqb_spec (DimensionsCount (out0 :: out1 :: output_shape)) 1)
      as [Hlen | Hlen];
      [unfold DimensionsCount in Hlen; cbn [length] in Hlen; lia |].
    eexists. split; [| reflexivity]. in_list.
Qed.

Lemma sum_squared_differences_snoc {F : Type} `{Scalar F} `{FloatSum F T}
    (ps ts : list T) p t :
  length ps = length ts →
  sum_squared_differences (ps ++ [p]) (ts ++ [t])
  = add_assign (sum_squared_differences ps ts) (square (fsub p t)).
Proof.
  intros Hlen. unfold sum_squared_differences.
  rewrite zip_with_app by exact Hlen.
  rewrite foldl_app. reflexivity.
Qed.

Lemma row_lookup size b (data : list T) (k : nat) :
  0 ≤ b * size → (k < Z.to_nat size)%nat →
  row size b data !! k = data !! Z.to_nat (b * size + Z.of_nat k).
Proof.
  intros Hb Hk. unfold row.
  rewrite lookup_take_lt by exact Hk. rewrite lookup_drop.
  f_equal. lia.
Qed.

Lemma row_length size b (data : list T) :
  0 ≤ b * size → b * size + size ≤ Z.of_nat (length data) →
  length (row size b data) = Z.to_nat size.
Proof.
  intros Hb Hlen. unfold row. rewrite length_take, length_drop. lia.
Qed.

(** The inner loop of [MSE] sums the squared differences of row [b]
    and leaves the output buffer alone. *)
Lemma MSE_row_sum {F : Type} `{Scalar F} `{FloatSum F T}
    size b (y_pred y_true out : list T) :
  0 ≤ size → 0 ≤ b → b * size + size ≤ INT_MAX →
  b * size + size ≤ Z.of_nat (length y_pred) →
  b * size + size ≤ Z.of_nat (length y_true) →
  returns
    (fold_lt size (λ i sum,
       idx ← offset b size i;
       p ← read y_pred idx;
       t ← read y_true idx;
       mret (add_assign sum (square (fsub p t)))) (fzero : F)) out
    (λ sum out',
       out' = out ∧
       sum = sum_squared_differences (row size b y_pred) (row size b y_true)).
Proof.
  intros Hsize Hb Hmax Hp Ht.
  assert (0 ≤ b * size) as Hbs by lia.
  assert (INT_MIN ≤ 0) as Hmin by (unfold INT_MIN; lia).
  pose (ps := row size b y_pred). pose (ts := row size b y_true).
  pose (I := λ (k : nat) (sum : F) (out' : list T),
    out' = out ∧
    sum = sum_squared_differences (take k ps) (take k ts)).
  eapply returns_mono.
  - apply (returns_fold_lt I).
    + split; reflexivity.
    + intros k sum out' Hk [-> ->].
      assert (is_Some (y_pred !! Z.to_nat (b * size + Z.of_nat k)))
        as [p Hkp] by (apply lookup_lt_is_Some_2; lia).
      assert (is_Some (y_true !! Z.to_nat (b * size + Z.of_nat k)))
        as [t Hkt] by (apply lookup_lt_is_Some_2; lia).
      apply returns_bind. unfold offset.
      apply returns_bind, returns_int; [lia |].
      apply returns_int; [lia |].
      replace (b * size + Z.of_nat k)
        with (Z.of_nat (Z.to_nat (b * size + Z.of_nat k))) by lia.
      apply returns_bind, (returns_read _ _ p); [exact Hkp |].
      apply returns_bind, (returns_read _ _ t); [exact Hkt |].
      apply returns_ret. split; [reflexivity |].
      assert (ps !! k = Some p) as Hps
        by (subst ps; rewrite row_lookup by assumption; exact Hkp).
      assert (ts !! k = Some t) as Hts
        by (subst ts; rewrite row_lookup by assumption; exact Hkt).
      rewrite (take_S_r ps k p Hps), (take_S_r ts k t Hts).
      symmetry. apply sum_squared_differences_snoc.
      rewrite !length_take.
      subst ps ts. rewrite !row_length by lia. reflexivity.
  - intros sum out' [-> ->]. split; [reflexivity |].
    rewrite !take_ge; [reflexivity | |];
      subst ps ts; rewrite row_length by lia; lia.
Qed.

Lemma MSE_ok {F : Type} `{Scalar F} `{FloatSum F T}
    batch rest (y_pred y_true buf : list T) :
  let size := FlatSize rest in
  0 ≤ size ≤ INT_MAX →
  batch * size ≤ INT_MAX →
  batch * size ≤ Z.of_nat (length y_pred) →
  batch * size ≤ Z.of_nat (length y_true) →
  batch ≤ Z.of_nat (length buf) →
  returns (MSE (batch :: rest) y_pred (batch :: rest) y_true [batch]) buf
    (λ _ out,
       length out = length buf ∧
       (∀ b : nat, Z.of_nat b < batch →
          out !! b = Some (mean_squared_difference size
                             (row size (Z.of_nat b) y_pred)
                             (row size (Z.of_nat b) y_true))) ∧
       (∀ b : nat, batch ≤ Z.of_nat b → out !! b = buf !! b)).
Proof.
  intros size Hsize Hmax Hp Ht Hbuf. unfold MSE.
  change (DimensionsCount [batch] =? 1) with true. cbv iota beta.
  change (negb true) with false. cbv iota.
  apply returns_bind, (returns_eq _ _ _ _ _ (Dims_0 _ _ _)).
  apply returns_bind, (returns_eq _ _ _ _ _ (Dims_0 _ _ _)).
  rewrite Z.eqb_refl. change (negb true) with false. cbv iota.
  rewrite shape_ne_false by reflexivity.
  apply returns_bind, (returns_eq _ _ _ _ _ (Dims_0 _ _ _)).
  apply returns_bind, (returns_eq _ _ _ _ _ (FlatSizeSkipDim_0 _ _ _)).
  fold size.
  apply returns_bind, returns_int; [unfold INT_MIN; lia |].
  pose (I := λ (k : nat) (out : list T),
    length out = length buf ∧
    (∀ b : nat, (b < k)%nat →
       out !! b = Some (mean_squared_difference size
                          (row size (Z.of_nat b) y_pred)
                          (row size (Z.of_nat b) y_true))) ∧
    (∀ b : nat, (k ≤ b)%nat → out !! b = buf !! b)).
  eapply returns_mono.
  - apply (returns_for_lt I).
    + split; [reflexivity | split]; [intros; lia | intros; reflexivity].
    + intros k out Hk (Hlen & Hdone & Hrest).
      assert (Z.of_nat k * size + size ≤ batch * size) as Hrow by nia.
      apply returns_bind.
      eapply returns_mono;
        [apply (MSE_row_sum size (Z.of_nat k) y_pred y_true out); lia |].
      intros sum out' [-> ->].
      apply returns_write; [lia |].
      split; [rewrite length_insert; exact Hlen | split].
      * intros b Hb. destruct (decide (b = k)) as [-> | Hbk].
        -- rewrite list_lookup_insert_eq by lia. reflexivity.
        -- rewrite list_lookup_insert_ne by auto. apply Hdone. lia.
      * intros b Hb. rewrite list_lookup_insert_ne by lia.
        apply Hrest. lia.
  - intros [] out (Hlen & Hdone & Hrest).
    split; [exact Hlen | split].
    + intros b Hb. apply Hdone. lia.
    + intros b Hb. apply Hrest. lia.
Qed.

(** [checkValue] stops at the first element outside of [[min, max]]. *)
Lemma checkValue_from_bad {St} n (lo k : nat) (data : list T) min max x
    (st : St) :
  (k < n)%nat → data !! (lo + k)%nat = Some x →
  fgt x max = true ∨ flt x min = true →
  checkValue_from n (Z.of_nat lo) data min max st = (Ok false, st).
Proof.
  revert lo k. induction n as [| n IH]; intros lo k Hk Hx Hbad; [lia |].
  assert (is_Some (data !! lo)) as [x0 Hx0]
    by (apply lookup_lt_is_Some_2; apply lookup_lt_Some in Hx; lia).
  cbn [checkValue_from].
  destruct (returns_read data lo x0 st (λ a s', a = x0 ∧ s' = st) Hx0)
    as (? & ? & Hread & -> & ->); [auto |].
  rewrite (bind_ok _ _ _ _ _ Hread).
  destruct (fgt x0 max || flt x0 min) eqn:Hx0bad; [reflexivity |].
  destruct k as [| k].
  - rewrite Nat.add_0_r, Hx0 in Hx. injection Hx as ->.
    apply orb_false_iff in Hx0bad as [? ?].
    destruct Hbad; congruence.
  - replace (Z.of_nat lo + 1) with (Z.of_nat (S lo)) by lia.
    apply (IH (S lo) k); [lia | | exact Hbad].
    rewrite <- Hx. f_equal. lia.
Qed.

Lemma checkValue_from_good {St} n (lo : nat) (data : list T) min max
    (st : St) :
  (∀ k, (k < n)%nat →
     ∃ x, data !! (lo + k)%nat = Some x ∧
          fgt x max = false ∧ flt x min = false) →
  checkValue_from n (Z.of_nat lo) data min max st = (Ok true, st).
Proof.
  revert lo. induction n as [| n IH]; intros lo Hgood; [reflexivity |].
  destruct (Hgood O ltac:(lia)) as (x0 & Hx0 & Hmax & Hmin).
  rewrite Nat.add_0_r in Hx0.
  cbn [checkValue_from].
  destruct (returns_read data lo x0 st (λ a s', a = x0 ∧ s' = st) Hx0)
    as (? & ? & Hread & -> & ->); [auto |].
  rewrite (bind_ok _ _ _ _ _ Hread), Hmax, Hmin. cbn [orb].
  replace (Z.of_nat lo + 1) with (Z.of_nat (S lo)) by lia.
  apply IH. intros k Hk.
  destruct (Hgood (S k) ltac:(lia)) as (x & Hx & ?).
  exists x. split; [| assumption].
  rewrite <- Hx. f_equal. lia.
Qed.

Lemma checkValue_bad {St} (data : list T) size min max (k : nat) x (st : St) :
  Z.of_nat k < size → data !! k = Some x →
  fgt x max = true ∨ flt x min = true →
  checkValue data size min max st = (Ok false, st).
Proof.
  intros Hk Hx Hbad. unfold checkValue.
  apply (checkValue_from_bad _ O k _ _ _ x); [lia | exact Hx | exact Hbad].
Qed.

Lemma checkValue_good {St} (data : list T) size min max (st : St) :
  (∀ k : nat, Z.of_nat k < size →
     ∃ x, data !! k = Some x ∧ fgt x max = false ∧ flt x min = false) →
  checkValue data size min max st = (Ok true, st).
Proof.
  intros Hgood. unfold checkValue.
  apply (checkValue_from_good _ O). intros k Hk. apply Hgood. lia.
Qed.

Lemma int_ok {St} z (st : St) :
  INT_MIN ≤ z ≤ INT_MAX → int z st = (Ok z, st).
Proof.
  intros Hz. destruct (returns_int z st (λ a s', a = z ∧ s' = st) Hz)
    as (? & ? & Hint & -> & ->); auto.
Qed.

Lemma CategoricalCrossEntropy_rejects (log : T → T)
    (y_pred y_true : list T) batch_size input_size (k : nat) x buf :
  INT_MIN ≤ input_size * batch_size ≤ INT_MAX →
  Z.of_nat k < input_size * batch_size → y_pred !! k = Some x →
  outside_unit x →
  CategoricalCrossEntropy log y_pred y_true batch_size input_size buf
  = (Throw (runtime_error
       "cker::CategoricalCrossEntropy: y_pred data is not logit data."),
     buf).
Proof.
  intros Hint Hk Hx Hbad. unfold CategoricalCrossEntropy.
  rewrite (bind_ok _ _ _ _ _ (int_ok _ _ Hint)).
  rewrite (bind_ok _ _ _ _ _ (checkValue_bad _ _ _ _ k x _ Hk Hx Hbad)).
  reflexivity.
Qed.

Lemma CategoricalCrossEntropyGrad_rejects
    (y_pred y_true : list T) batch_size input_size (k : nat) x buf :
  INT_MIN ≤ input_size * batch_size ≤ INT_MAX →
  Z.of_nat k < input_size * batch_size → y_pred !! k = Some x →
  outside_unit x →
  CategoricalCrossEntropyGrad y_pred y_true batch_size input_size buf
  = (Throw (runtime_error
       "cker::CategoricalCrossEntropyGrad: y_pred data is not logit data."),
     buf).
Proof.
  intros Hint Hk Hx Hbad. unfold CategoricalCrossEntropyGrad.
  rewrite (bind_ok _ _ _ _ _ (int_ok _ _ Hint)).
  rewrite (bind_ok _ _ _ _ _ (checkValue_bad _ _ _ _ k x _ Hk Hx Hbad)).
  reflexivity.
Qed.

End loss_facts.

(** ** Cross entropy in exact arithmetic

    [CategoricalCrossEntropy] negates each term, skips the terms whose
    label is zero and sums row by row.  That this is the negated sum of
    all terms uses the laws of a commutative ring, which hold for exact
    arithmetic and, in floating point, only up to rounding. *)

Section exact_arithmetic.
Import cker spec.
Context {T : Type} `{Scalar T}.
Variable log : T → T.
Hypothesis Tring : ring_theory fzero (of_int 1) fadd fmul fsub fneg eq.
Hypothesis of_int_0 : of_int 0 = fzero.
Hypothesis feq_eq : ∀ a b : T, feq a b = true → a = b.

Add Ring Tring : Tring.

Variables y_pred y_true : list T.

Local Abbreviation term := (term log y_pred y_true).
Local Abbreviation terms := (terms log y_pred y_true).

Lemma terms_S lo n : terms lo (S n) = fadd (terms lo n) (term (lo + n)).
Proof. unfold spec.terms. rewrite seq_S, fmap_app, foldl_app. reflexivity. Qed.

Lemma terms_app lo n m :
  terms lo (n + m) = fadd (terms lo n) (terms (lo + n) m).
Proof.
  induction m as [| m IH].
  - rewrite Nat.add_0_r. unfold spec.terms at 3. cbn. ring.
  - rewrite Nat.add_succ_r, !terms_S, IH, Nat.add_assoc. ring.
Qed.

Lemma terms_zip (n : nat) :
  (n ≤ length y_pred)%nat → (n ≤ length y_true)%nat →
  zip_with (λ t p, fmul t (log (fmax p eps))) (take n y_true) (take n y_pred)
  = term <$> seq 0 n.
Proof.
  induction n as [| n IH]; intros Hp Ht; [reflexivity |].
  destruct (lookup_lt_is_Some_2 y_pred n ltac:(lia)) as [p Hnp].
  destruct (lookup_lt_is_Some_2 y_true n ltac:(lia)) as [t Hnt].
  rewrite (take_S_r _ _ _ Hnp), (take_S_r _ _ _ Hnt).
  rewrite zip_with_app by (rewrite !length_take; lia).
  rewrite IH by lia. rewrite seq_S, fmap_app. cbn.
  unfold spec.term at 3. rewrite Hnt, Hnp. reflexivity.
Qed.

Lemma cross_entropy_sum_terms (n : nat) :
  (n ≤ length y_pred)%nat → (n ≤ length y_true)%nat →
  cross_entropy_sum log (Z.of_nat n) y_pred y_true = terms 0 n.
Proof.
  intros Hp Ht. unfold cross_entropy_sum, spec.terms.
  rewrite Nat2Z.id, terms_zip by assumption. reflexivity.
Qed.

(** One row: the inner loop subtracts the terms of row [b] from
    [sum[b]]. *)
Lemma CategoricalCrossEntropy_row (b I : nat) (sum : list T) s0
    (buf : list T) :
  sum !! b = Some s0 →
  Z.of_nat (b * I + I) ≤ INT_MAX →
  (b * I + I ≤ length y_pred)%nat →
  (b * I + I ≤ length y_true)%nat →
  returns
    (fold_lt (Z.of_nat I) (λ i sum,
       idx ← int (Z.of_nat b * Z.of_nat I + i);
       t ← read y_true idx;
       if fne t (of_int 0) then
         p ← read y_pred idx;
         add_at sum (Z.of_nat b) (fmul (fneg (log (fmax p eps))) t)
       else mret sum) sum) buf
    (λ sum' buf',
       buf' = buf ∧
       sum' = <[b := fadd s0 (fneg (terms (b * I) I))]> sum).
Proof.
  intros Hb Hmax Hp Ht.
  assert (INT_MIN ≤ 0) as Hmin by (unfold INT_MIN; lia).
  pose (J := λ (k : nat) (sum' : list T) (buf' : list T),
    buf' = buf ∧ sum' = <[b := fadd s0 (fneg (terms (b * I) k))]> sum).
  eapply returns_mono.
  - apply (returns_fold_lt J).
    + split; [reflexivity |]. symmetry. apply list_insert_id.
      rewrite Hb. f_equal. unfold spec.terms. cbn. ring.
    + rewrite Nat2Z.id. intros k sum' buf' Hk [-> ->].
      destruct (lookup_lt_is_Some_2 y_pred (b * I + k) ltac:(lia))
        as [p Hkp].
      destruct (lookup_lt_is_Some_2 y_true (b * I + k) ltac:(lia))
        as [t Hkt].
      assert (term (b * I + k) = fmul t (log (fmax p eps))) as Hterm
        by (unfold spec.term; rewrite Hkt, Hkp; reflexivity).
      apply returns_bind, returns_int; [lia |].
      replace (Z.of_nat b * Z.of_nat I + Z.of_nat k)
        with (Z.of_nat (b * I + k)) by lia.
      apply returns_bind, (returns_read _ _ t); [exact Hkt |].
      unfold fne. destruct (feq t (of_int 0)) eqn:Hzero; cbn [negb].
      * apply feq_eq in Hzero. rewrite of_int_0 in Hzero. subst t.
        apply returns_ret. split; [reflexivity |].
        rewrite terms_S, Hterm. f_equal. ring.
      * apply returns_bind, (returns_read _ _ p); [exact Hkp |].
        unfold add_at.
        apply returns_bind,
          (returns_read _ _ (fadd s0 (fneg (terms (b * I) k)))).
        { apply list_lookup_insert_eq. apply lookup_lt_Some in Hb. lia. }
        apply returns_ret. split; [reflexivity |].
        rewrite Nat2Z.id, list_insert_insert_eq, terms_S, Hterm.
        f_equal. ring.
  - rewrite Nat2Z.id. intros sum' buf' HJ. exact HJ.
Qed.

Local Abbreviation row_losses I b :=
  ((λ j, fneg (terms (j * I) I)) <$> seq 0 b).

Lemma row_losses_sum (I B : nat) :
  foldl fadd fzero (row_losses I B) = fneg (terms 0 (B * I)).
Proof.
  induction B as [| B IH].
  - unfold spec.terms. cbn. ring.
  - rewrite seq_S, fmap_app, foldl_app, IH. cbn [fmap list_fmap foldl].
    rewrite Nat.mul_succ_l, terms_app. cbn [Nat.add]. ring.
Qed.

Lemma row_losses_step (I B b : nat) :
  (b < B)%nat →
  <[b := fadd fzero (fneg (terms (b * I) I))]>
    (row_losses I b ++ replicate (B - b) fzero)
  = row_losses I (S b) ++ replicate (B - S b) fzero.
Proof.
  intros Hb.
  rewrite insert_app_r_alt by (rewrite length_fmap, length_seq; lia).
  rewrite length_fmap, length_seq, Nat.sub_diag.
  replace (B - b)%nat with (S (B - S b)) by lia.
  rewrite seq_S, fmap_app, <- app_assoc. cbn. do 2 f_equal. ring.
Qed.

Lemma CategoricalCrossEntropy_exact_nat (B I : nat) (buf : list T) :
  Z.of_nat (B * I) ≤ INT_MAX →
  (B * I ≤ length y_pred)%nat → (B * I ≤ length y_true)%nat →
  (0 < length buf)%nat →
  (∀ k : nat, (k < B * I)%nat →
     ∃ x, y_pred !! k = Some x ∧
          fgt x (of_int 1) = false ∧ flt x (of_int 0) = false) →
  CategoricalCrossEntropy log y_pred y_true (Z.of_nat B) (Z.of_nat I) buf
  = (Ok tt,
     <[0%nat := CategoricalCrossEntropy_value log (Z.of_nat B) (Z.of_nat I)
                  y_pred y_true]> buf).
Proof.
  intros Hmax Hp Ht Hbuf Hgood.
  assert (INT_MIN ≤ 0) as Hmin by (unfold INT_MIN; lia).
  assert (INT_MIN ≤ Z.of_nat I * Z.of_nat B ≤ INT_MAX) as Hn by lia.
  assert (∀ k : nat, Z.of_nat k < Z.of_nat I * Z.of_nat B →
            ∃ x, y_pred !! k = Some x ∧
                 fgt x (of_int 1) = false ∧ flt x (of_int 0) = false)
    as Hgood' by (intros k Hk; apply Hgood; lia).
  unfold CategoricalCrossEntropy.
  rewrite (bind_ok _ _ _ _ _ (int_ok _ _ Hn)).
  rewrite (bind_ok _ _ _ _ _ (checkValue_good _ _ _ _ _ Hgood')).
  cbn [negb].
  destruct (Z.ltb_spec (Z.of_nat B) 0) as [? | _]; [lia |].
  rewrite bind_run. cbn [mret M_ret]. rewrite Nat2Z.id.
  pose (K := λ (b : nat) (sum : list T) (buf' : list T),
    buf' = buf ∧ sum = row_losses I b ++ replicate (B - b) fzero).
  assert (returns
    (fold_lt (Z.of_nat B) (λ b sum,
       b_offset ← int (b * Z.of_nat I);
       fold_lt (Z.of_nat I) (λ i sum,
         idx ← int (b_offset + i);
         t ← read y_true idx;
         if fne t (of_int 0) then
           p ← read y_pred idx;
           add_at sum b (fmul (fneg (log (fmax p eps))) t)
         else mret sum) sum) (replicate B fzero)) buf (K B)) as Hloop.
  { rewrite <- (Nat2Z.id B) at 3. apply (returns_fold_lt K).
    - split; [reflexivity |]. cbn. rewrite Nat.sub_0_r. reflexivity.
    - rewrite Nat2Z.id. intros b sum buf' Hb [-> ->].
      assert (b * I + I ≤ B * I)%nat as Hrow by nia.
      apply returns_bind, returns_int; [nia |].
      eapply returns_mono.
      + apply (CategoricalCrossEntropy_row b I _ fzero); [| lia | lia | lia].
        rewrite lookup_app_r by (rewrite length_fmap, length_seq; lia).
        rewrite length_fmap, length_seq, Nat.sub_diag.
        apply lookup_replicate_2. lia.
      + intros sum' buf' [-> ->]. split; [reflexivity |].
        apply row_losses_step, Hb. }
  destruct Hloop as (sum & buf' & Hrun & -> & ->).
  rewrite (bind_ok _ _ _ _ _ Hrun).
  rewrite Nat.sub_diag, app_nil_r, row_losses_sum.
  destruct (returns_write O
              (fdiv (fneg (terms 0 (B * I))) (of_int (Z.of_nat B))) buf
              (λ _ out, out = <[0%nat := fdiv (fneg (terms 0 (B * I)))
                                           (of_int (Z.of_nat B))]> buf)
              Hbuf eq_refl) as ([] & out & Hwrite & ->).
  change (Z.of_nat 0) with 0 in Hwrite. rewrite Hwrite.
  unfold CategoricalCrossEntropy_value.
  rewrite <- Nat2Z.inj_mul, cross_entropy_sum_terms by assumption.
  reflexivity.
Qed.

End exact_arithmetic.

(** ** Cross entropy on floats

    On binary32 the two loops, the one of the kernel and the one that
    skips nothing, return the same value up to the sign of a zero: the
    term of a zero label is a zero, and adding a zero changes at most
    the sign of a zero sum. *)

Section float_cross_entropy.
Import cker spec binary32.

Lemma same_value_refl (a : float) : same_value a a.
Proof. left. reflexivity. Qed.

Lemma fadd_same_value (a1 a2 x1 x2 : float) :
  same_value a1 a2 → same_value x1 x2 →
  same_value (fadd a1 x1) (fadd a2 x2).
Proof.
  intros [-> | [Ha1 Ha2]] [-> | [Hx1 Hx2]].
  - left. reflexivity.
  - destruct x1 as [[] | | |], x2 as [[] | | |]; try discriminate;
      destruct a2 as [[] | [] | | [] ? ?]; cbn;
      first [left; reflexivity | right; split; reflexivity].
  - destruct a1 as [[] | | |], a2 as [[] | | |]; try discriminate;
      destruct x2 as [[] | [] | | [] ? ?]; cbn;
      first [left; reflexivity | right; split; reflexivity].
  - destruct a1 as [[] | | |], a2 as [[] | | |]; try discriminate;
      destruct x1 as [[] | | |], x2 as [[] | | |]; try discriminate; cbn;
      right; split; reflexivity.
Qed.

Lemma fadd_zero_r (a z : float) :
  is_zero z = true → same_value (fadd a z) a.
Proof.
  intros Hz. destruct z as [[] | | |]; try discriminate;
    destruct a as [[] | [] | | [] ? ?]; cbn;
    first [left; reflexivity | right; split; reflexivity].
Qed.

Lemma fmul_zero_r (x t : float) :
  is_finite x = true → is_zero t = true → is_zero (fmul x t) = true.
Proof.
  intros Hx Ht. destruct t as [[] | | |]; try discriminate;
    destruct x as [[] | | | [] ? ?]; try discriminate; reflexivity.
Qed.

Lemma fneg_finite (x : float) : is_finite (fneg x) = is_finite x.
Proof. destruct x; reflexivity. Qed.

Lemma feq_zero (t : float) : feq t (of_int 0) = true → is_zero t = true.
Proof.
  destruct t as [[] | [] | | [] ? ?]; cbn; intros Ht;
    first [reflexivity | discriminate Ht].
Qed.

Lemma fdiv_same_value (a1 a2 d : float) :
  same_value a1 a2 → same_value (fdiv a1 d) (fdiv a2 d).
Proof.
  intros [-> | [Ha1 Ha2]]; [left; reflexivity |].
  destruct a1 as [[] | | |], a2 as [[] | | |]; try discriminate;
    destruct d as [[] | [] | | [] ? ?]; cbn;
    first [left; reflexivity | right; split; reflexivity].
Qed.

Lemma foldl_fadd_same_value (l1 l2 : list float) a1 a2 :
  Forall2 same_value l1 l2 → same_value a1 a2 →
  same_value (foldl fadd a1 l1) (foldl fadd a2 l2).
Proof.
  intros Hl. revert a1 a2. induction Hl as [| x1 x2 l1 l2 Hx Hl IH];
    intros a1 a2 Ha; [exact Ha |].
  cbn [foldl]. apply IH, fadd_same_value; assumption.
Qed.

Lemma add_at_ok {St} (sum : list float) (b : nat) old x (st : St) :
  sum !! b = Some old →
  add_at sum (Z.of_nat b) x st = (Ok (<[b := fadd old x]> sum), st).
Proof.
  intros Hb. unfold add_at.
  rewrite (bind_ok _ _ _ _ _ (read_ok _ _ _ _ Hb)), Nat2Z.id. reflexivity.
Qed.

Variable log : float → float.
Variables y_pred y_true : list float.

(** One row of the two loops. *)
Lemma CategoricalCrossEntropy_rows_related (b I : nat)
    (sum1 sum2 buf : list float) :
  Forall2 same_value sum1 sum2 → (b < length sum1)%nat →
  Z.of_nat (b * I + I) ≤ INT_MAX →
  (b * I + I ≤ length y_pred)%nat → (b * I + I ≤ length y_true)%nat →
  (∀ (k : nat) x, (k < b * I + I)%nat → y_pred !! k = Some x →
     ¬ outside_unit x ∧ is_finite (log (fmax x eps)) = true) →
  ∃ r1 r2,
    fold_lt (Z.of_nat I) (λ i sum,
      idx ← int (Z.of_nat b * Z.of_nat I + i);
      t ← read y_true idx;
      if fne t (of_int 0) then
        p ← read y_pred idx;
        add_at sum (Z.of_nat b) (fmul (fneg (log (fmax p eps))) t)
      else mret sum) sum1 buf = (Ok r1, buf) ∧
    fold_lt (Z.of_nat I) (λ i sum,
      idx ← int (Z.of_nat b * Z.of_nat I + i);
      t ← read y_true idx;
      p ← read y_pred idx;
      add_at sum (Z.of_nat b) (fmul (fneg (log (fmax p eps))) t)) sum2 buf
    = (Ok r2, buf) ∧
    Forall2 same_value r1 r2 ∧ length r1 = length sum1.
Proof.
  intros Hsum Hb Hmax Hp Ht Hlog.
  assert (INT_MIN ≤ 0) as Hmin by (unfold INT_MIN; lia).
  unfold fold_lt. rewrite Nat2Z.id.
  remember (length sum1) as L eqn:HL. symmetry in HL.
  apply (fold_from_related
           (λ s1 s2, Forall2 same_value s1 s2 ∧ length s1 = L));
    [split; assumption |].
  clear sum1 sum2 Hsum HL. intros k sum1 sum2 Hk [Hsum HL].
  rewrite <- HL in Hb.
  change (0 + Z.of_nat k) with (Z.of_nat k).
  destruct (lookup_lt_is_Some_2 y_pred (b * I + k) ltac:(lia)) as [p Hkp].
  destruct (lookup_lt_is_Some_2 y_true (b * I + k) ltac:(lia)) as [t Hkt].
  destruct (lookup_lt_is_Some_2 sum1 b Hb) as [o1 Ho1].
  destruct (lookup_lt_is_Some_2 sum2 b) as [o2 Ho2];
    [rewrite <- (Forall2_length _ _ _ Hsum); exact Hb |].
  pose proof (Forall2_lookup_lr _ _ _ _ _ _ Hsum Ho1 Ho2) as Ho.
  assert (INT_MIN ≤ Z.of_nat b * Z.of_nat I + Z.of_nat k ≤ INT_MAX)
    as Hidx by lia.
  rewrite !(bind_ok _ _ _ _ _ (int_ok _ _ Hidx)).
  replace (Z.of_nat b * Z.of_nat I + Z.of_nat k)
    with (Z.of_nat (b * I + k)) by lia.
  rewrite !(bind_ok _ _ _ _ _ (read_ok _ _ _ _ Hkt)).
  rewrite (bind_ok (read y_pred _) _ _ _ _ (read_ok _ _ _ _ Hkp)).
  rewrite (add_at_ok sum2 b o2 _ _ Ho2).
  set (x := fmul (fneg (log (fmax p eps))) t).
  unfold fne. destruct (feq t (of_int 0)) eqn:Hzero; cbn [negb].
  - (* the label is a zero: the term is one too *)
    exists sum1, (<[b := fadd o2 x]> sum2).
    split; [reflexivity | split; [reflexivity | split; [| exact HL]]].
    rewrite <- (list_insert_id sum1 b o1 Ho1).
    apply Forall2_insert; [exact Hsum |].
    assert (is_zero x = true) as Hx.
    { apply fmul_zero_r; [| apply feq_zero, Hzero].
      rewrite fneg_finite. apply (Hlog (b * I + k)%nat); [lia | exact Hkp]. }
    destruct (fadd_zero_r o2 x Hx) as [-> | [Hz1 Hz2]]; [exact Ho |].
    destruct Ho as [-> | [Ho1z _]]; right; auto.
  - rewrite (bind_ok _ _ _ _ _ (read_ok _ _ _ _ Hkp)).
    rewrite (add_at_ok sum1 b o1 _ _ Ho1). fold x.
    exists (<[b := fadd o1 x]> sum1), (<[b := fadd o2 x]> sum2).
    split; [reflexivity | split; [reflexivity | split]].
    + apply Forall2_insert; [exact Hsum |].
      apply fadd_same_value; [exact Ho | apply same_value_refl].
    + rewrite length_insert. exact HL.
Qed.

(** The kernel and the loop that skips nothing, on binary32, for a
    [yPred] within [[0, 1]] and a [log] that is a number on the values
    it is given. *)
Lemma CategoricalCrossEntropy_skip_harmless (B I : nat) (buf : list float) :
  Z.of_nat (B * I) ≤ INT_MAX →
  (B * I ≤ length y_pred)%nat → (B * I ≤ length y_true)%nat →
  (0 < length buf)%nat →
  (∀ (k : nat) x, (k < B * I)%nat → y_pred !! k = Some x →
     ¬ outside_unit x ∧ is_finite (log (fmax x eps)) = true) →
  ∃ v v',
    CategoricalCrossEntropy log y_pred y_true (Z.of_nat B) (Z.of_nat I) buf
    = (Ok tt, <[0%nat := v]> buf) ∧
    CategoricalCrossEntropy_all_terms log y_pred y_true
      (Z.of_nat B) (Z.of_nat I) buf
    = (Ok tt, <[0%nat := v']> buf) ∧
    same_value v v'.
Proof.
  intros Hmax Hp Ht Hbuf Hgood.
  assert (INT_MIN ≤ 0) as Hmin by (unfold INT_MIN; lia).
  assert (INT_MIN ≤ Z.of_nat I * Z.of_nat B ≤ INT_MAX) as Hn by lia.
  assert (∀ k : nat, Z.of_nat k < Z.of_nat I * Z.of_nat B →
            ∃ x, y_pred !! k = Some x ∧
                 fgt x (of_int 1) = false ∧ flt x (of_int 0) = false)
    as Hunit.
  { intros k Hk.
    destruct (lookup_lt_is_Some_2 y_pred k ltac:(lia)) as [x Hx].
    exists x. split; [exact Hx |].
    destruct (Hgood k x ltac:(lia) Hx) as [Hin _]. unfold outside_unit in Hin.
    destruct (fgt x (of_int 1)), (flt x (of_int 0)); tauto. }
  unfold CategoricalCrossEntropy, CategoricalCrossEntropy_all_terms.
  rewrite !(bind_ok _ _ _ _ _ (int_ok _ _ Hn)).
  rewrite !(bind_ok _ _ _ _ _ (checkValue_good _ _ _ _ _ Hunit)).
  cbn [negb].
  destruct (Z.ltb_spec (Z.of_nat B) 0) as [? | _]; [lia |].
  rewrite !(bind_run (mret _)). cbn [mret M_ret]. rewrite Nat2Z.id.
  unfold fold_lt at 1 3. rewrite Nat2Z.id.
  match goal with
  | |- ∃ v v', (fold_from B 0 ?body1 ?a1 ≫= _) buf = _ ∧
               (fold_from B 0 ?body2 ?a2 ≫= _) buf = _ ∧ _ =>
      destruct (fold_from_related
                  (λ s1 s2 : list float,
                     Forall2 same_value s1 s2 ∧ length s1 = B)
                  B 0 body1 body2 a1 a2 buf)
        as (r1 & r2 & Hr1 & Hr2 & Hr & _)
  end.
  - split; [| apply length_replicate].
    apply Forall2_same_length_lookup_2; [reflexivity |].
    intros i x y Hx Hy. left. congruence.
  - intros b sum1 sum2 Hb [Hsum Hlen].
    change (0 + Z.of_nat b) with (Z.of_nat b).
    assert (b * I + I ≤ B * I)%nat as Hrow by nia.
    assert (INT_MIN ≤ Z.of_nat b * Z.of_nat I ≤ INT_MAX) as Hoff by nia.
    rewrite !(bind_ok _ _ _ _ _ (int_ok _ _ Hoff)).
    destruct (CategoricalCrossEntropy_rows_related b I sum1 sum2 buf)
      as (r1 & r2 & Hr1 & Hr2 & Hr & Hlen'); try assumption; try lia.
    { intros k x Hk Hx. apply (Hgood k x); [lia | exact Hx]. }
    exists r1, r2. split; [exact Hr1 | split; [exact Hr2 | split]];
      [exact Hr | congruence].
  - rewrite (bind_ok _ _ _ _ _ Hr1), (bind_ok _ _ _ _ _ Hr2).
    pose proof (fdiv_same_value _ _ (of_int (Z.of_nat B))
                  (foldl_fadd_same_value r1 r2 _ _ Hr (same_value_refl fzero)))
      as Hv.
    eexists _, _. split; [| split; [| exact Hv]].
    + unfold write.
      replace ((0 <=? 0) && (0 <? Z.of_nat (length buf))) with true
        by (symmetry; apply andb_true_iff; split;
            [reflexivity | apply Z.ltb_lt; lia]).
      reflexivity.
    + unfold write.
      replace ((0 <=? 0) && (0 <? Z.of_nat (length buf))) with true
        by (symmetry; apply andb_true_iff; split;
            [reflexivity | apply Z.ltb_lt; lia]).
      reflexivity.
Qed.

End float_cross_entropy.

(** ** The gradient of a binary arithmetic operation *)

Section binary_arithmetic_facts.
Import cker.
Context {T : Type} `{Scalar T}.

Lemma BinaryArithmeticGrad_unsupported incoming_shape
    (incoming_data : list T) lhs_grad_shape rhs_grad_shape kind bufs :
  kind ≠ kAdd →
  BinaryArithmeticGrad incoming_shape incoming_data
    lhs_grad_shape rhs_grad_shape kind bufs
  = (Throw (runtime_error "Unsupported Binary Arithmetic Operation"), bufs).
Proof. intros Hkind. destruct kind; [congruence | | |]; reflexivity. Qed.

(** For [kAdd] the two buffers are filled one after the other, each
    from the incoming gradient alone. *)
Lemma BinaryArithmeticGrad_add incoming_shape (incoming_data : list T)
    lhs_grad_shape rhs_grad_shape (lhs rhs : list T) :
  BinaryArithmeticGrad incoming_shape incoming_data
    lhs_grad_shape rhs_grad_shape kAdd (lhs, rhs)
  = match BroadcastTo incoming_shape incoming_data lhs_grad_shape lhs with
    | (Ok _, lhs') =>
        let '(r, rhs') :=
          BroadcastTo incoming_shape incoming_data rhs_grad_shape rhs in
        (r, (lhs', rhs'))
    | (r, lhs') => (r, (lhs', rhs))
    end.
Proof.
  unfold BinaryArithmeticGrad. rewrite bind_run. unfold on_fst, on_snd.
  cbn [fst snd].
  destruct (BroadcastTo incoming_shape incoming_data lhs_grad_shape lhs)
    as [[[] | e |] lhs']; reflexivity.
Qed.

(** The model of [BroadcastTo] copies when the two shapes are the same:
    an element of the incoming gradient contributes to the element with
    its own index. *)
Lemma FlatSize_pos (s : Shape) : forallb (λ d, 0 <? d) s = true → 0 < FlatSize s.
Proof.
  induction s as [| d s IH]; intros Hpos; [reflexivity |].
  cbn in Hpos. apply andb_true_iff in Hpos as [Hd Hs].
  apply Z.ltb_lt in Hd. specialize (IH Hs).
  change (FlatSize (d :: s)) with (d * FlatSize s). lia.
Qed.

Lemma ravel_unravel (s : Shape) acc r :
  forallb (λ d, 0 <? d) s = true → 0 ≤ r < FlatSize s →
  foldl (λ acc dc, acc * dc.1 + dc.2) acc
    (zip s (zip_with (λ d c, if d =? 1 then 0 else c) s (unravel s r)))
  = acc * FlatSize s + r.
Proof.
  revert acc r. induction s as [| d s IH]; intros acc r Hpos Hr.
  - change (FlatSize []) with 1 in *. cbn. lia.
  - cbn in Hpos. apply andb_true_iff in Hpos as [Hd Hs].
    apply Z.ltb_lt in Hd. pose proof (FlatSize_pos s Hs) as HF.
    change (FlatSize (d :: s)) with (d * FlatSize s) in *.
    cbn [unravel zip_with zip foldl fst snd].
    rewrite IH by (try assumption; apply Z.mod_pos_bound; lia).
    assert ((if d =? 1 then 0 else r / FlatSize s) = r / FlatSize s) as ->.
    { destruct (Z.eqb_spec d 1) as [-> | _]; [| reflexivity].
      symmetry. apply Z.div_small. lia. }
    pose proof (Z.div_mod r (FlatSize s) ltac:(lia)). lia.
Qed.

Lemma reduced_index_same (s : Shape) i :
  forallb (λ d, 0 <? d) s = true → 0 ≤ i < FlatSize s →
  reduced_index s s i = i.
Proof.
  intros Hpos Hi. unfold reduced_index, ravel.
  rewrite Nat.sub_diag, drop_0, ravel_unravel by assumption. lia.
Qed.

Lemma reducible_same (s : Shape) :
  forallb (λ d, 0 <? d) s = true → reducible s s = true.
Proof.
  intros Hpos. unfold reducible. rewrite Hpos, Nat.sub_diag, drop_0.
  rewrite bool_decide_eq_true_2 by lia.
  rewrite bool_decide_eq_true_2; [reflexivity |].
  apply Forall2_same_length_lookup_2; [reflexivity |].
  intros i x y Hx Hy. left. congruence.
Qed.

Lemma BroadcastTo_same_shape (shape : Shape) (data buf : list T) :
  forallb (λ d, 0 <? d) shape = true →
  FlatSize shape ≤ Z.of_nat (length data) →
  FlatSize shape ≤ Z.of_nat (length buf) →
  returns (BroadcastTo shape data shape) buf (λ _ out,
    length out = length buf ∧
    (∀ i : nat, Z.of_nat i < FlatSize shape → out !! i = data !! i) ∧
    (∀ i : nat, FlatSize shape ≤ Z.of_nat i → out !! i = buf !! i)).
Proof.
  intros Hpos Hdata Hbuf. unfold BroadcastTo.
  rewrite reducible_same by exact Hpos.
  set (n := FlatSize shape) in *.
  pose (I := λ (k : nat) (out : list T),
    length out = length buf ∧
    (∀ i : nat, (i < k)%nat → out !! i = data !! i) ∧
    (∀ i : nat, (k ≤ i)%nat → out !! i = buf !! i)).
  eapply returns_mono.
  - apply (returns_for_lt I).
    + split; [reflexivity | split]; [intros; lia | intros; reflexivity].
    + intros o out Ho (Hlen & Hdone & Hrest).
      destruct (lookup_lt_is_Some_2 data o ltac:(lia)) as [x Hx].
      pose (J := λ (k : nat) (acc : option T) (out' : list T),
        out' = out ∧ acc = if decide (k ≤ o)%nat then None else Some x).
      apply returns_bind.
      eapply returns_mono.
      * apply (returns_fold_lt J).
        -- split; [reflexivity |]. rewrite decide_True by lia. reflexivity.
        -- intros k acc out' Hk [-> ->].
           rewrite reduced_index_same by (try assumption; lia).
           destruct (Z.eqb_spec (Z.of_nat k) (Z.of_nat o)) as [Heq | Hne].
           ++ apply Nat2Z.inj in Heq. subst k.
              apply returns_bind, (returns_read _ _ x); [exact Hx |].
              apply returns_ret. split; [reflexivity |].
              rewrite decide_True, decide_False by lia. reflexivity.
           ++ apply returns_ret. split; [reflexivity |].
              destruct (decide (k ≤ o)%nat), (decide (S k ≤ o)%nat);
                try reflexivity; lia.
      * intros acc out' [-> ->]. rewrite decide_False by lia. cbn [default].
        apply returns_write; [lia |].
        split; [rewrite length_insert; exact Hlen | split].
        -- intros i Hi. destruct (decide (i = o)) as [-> | Hio].
           ++ rewrite list_lookup_insert_eq by lia. symmetry. exact Hx.
           ++ rewrite list_lookup_insert_ne by auto. apply Hdone. lia.
        -- intros i Hi. rewrite list_lookup_insert_ne by lia.
           apply Hrest. lia.
  - intros [] out (Hlen & Hdone & Hrest).
    split; [exact Hlen | split].
    + intros i Hi. apply Hdone. lia.
    + intros i Hi. apply Hrest. lia.
Qed.

(** With both operands of the shape of the incoming gradient, the two
    gradients of an addition are the incoming gradient. *)
Lemma BinaryArithmeticGrad_add_same_shape (shape : Shape)
    (incoming lhs rhs : list T) :
  forallb (λ d, 0 <? d) shape = true →
  FlatSize shape = Z.of_nat (length incoming) →
  length lhs = length incoming → length rhs = length incoming →
  BinaryArithmeticGrad shape incoming shape shape kAdd (lhs, rhs)
  = (Ok tt, (incoming, incoming)).
Proof.
  intros Hpos Hin Hlhs Hrhs.
  assert (∀ buf : list T, length buf = length incoming →
            BroadcastTo shape incoming shape buf = (Ok tt, incoming)) as Hcopy.
  { intros buf Hbuf.
    destruct (BroadcastTo_same_shape shape incoming buf Hpos)
      as ([] & out & -> & Hlen & Hdone & _); [lia | lia |].
    f_equal. apply list_eq. intros i.
    destruct (decide (i < length incoming)%nat) as [Hi | Hi].
    - apply Hdone. lia.
    - rewrite !lookup_ge_None_2 by lia. reflexivity. }
  rewrite BinaryArithmeticGrad_add, !Hcopy by assumption. reflexivity.
Qed.

End binary_arithmetic_facts.

(** ** The training compiler *)

Section entries_facts.
Context {V : Type}.

#[local] Instance key_le_total : Total (@key_le V).
Proof. intros a b. unfold key_le. lia. Qed.

Lemma entries_Permutation (m : gmap nat V) : entries m ≡ₚ map_to_list m.
Proof. apply merge_sort_Permutation. Qed.

Lemma entries_sorted (m : gmap nat V) : Sorted key_le (entries m).
Proof. apply Sorted_merge_sort. exact key_le_total. Qed.

Lemma elem_of_entries (m : gmap nat V) k v :
  (k, v) ∈ entries m ↔ m !! k = Some v.
Proof. rewrite entries_Permutation. apply elem_of_map_to_list. Qed.

Lemma NoDup_fst_entries (m : gmap nat V) : NoDup (entries m).*1.
Proof. rewrite entries_Permutation. apply NoDup_fst_map_to_list. Qed.

End entries_facts.

Section compiler_facts.
Import onert spec.
Context `{Collaborators}.

Lemma TrainingCompiler_new_rejects training_info (w : World) :
  copts w ≠ [] →
  (1 < model_count (nnpkg w))%nat ∨
  (1 < subgraphs_count (primary_model (nnpkg w)))%nat →
  ∃ e, e ∈ unsupported_model_errors ∧
       TrainingCompiler_new training_info w = (Throw e, w).
Proof.
  intros Hcopts Hmany. unfold TrainingCompiler_new, unsupported_model_errors.
  rewrite bind_run. change (get w) with (Ok w, w). cbv iota beta.
  destruct (copts w) as [| o copts']; [congruence |].
  case_bool_decide.
  - eexists. split; [| reflexivity]. in_list.
  - case_bool_decide; [| lia].
    eexists. split; [| reflexivity]. in_list.
Qed.

Lemma compile_profiling_without_scheduler this (w : World) o :
  _options w = Some o →
  he_profiling_mode o = true → he_scheduler o = false →
  compile this w
  = (Throw (runtime_error
       "Heterogeneous scheduler must be enabled during profiling."), w).
Proof.
  intros Ho Hprof Hsched. unfold compile.
  rewrite bind_run. change (get w) with (Ok w, w). cbv iota beta.
  rewrite Ho, bind_run, Hprof, Hsched. reflexivity.
Qed.

Lemma compile_profiling_without_dataflow this (w : World) o :
  _options w = Some o →
  he_profiling_mode o = true → he_scheduler o = true →
  executor o ≠ "Dataflow" →
  compile this w
  = (Throw (runtime_error
       "Profiling mode works only with 'Dataflow' executor"), w).
Proof.
  intros Ho Hprof Hsched Hexec. unfold compile.
  rewrite bind_run. change (get w) with (Ok w, w). cbv iota beta.
  rewrite Ho, bind_run, Hprof, Hsched. cbn [negb].
  rewrite bool_decide_eq_true_2 by exact Hexec. reflexivity.
Qed.

Lemma compile_minmax_without_linear this (w : World) o :
  _options w = Some o →
  he_profiling_mode o = false ∨
    (he_scheduler o = true ∧ executor o = "Dataflow") →
  minmax_filepath o ≠ "" → executor o ≠ "Linear" →
  compile this w
  = (Throw (runtime_error
       "Recording minmax works only with Linear executor"), w).
Proof.
  intros Ho Hmode Hpath Hexec. unfold compile.
  rewrite bind_run. change (get w) with (Ok w, w). cbv iota beta.
  rewrite Ho, bind_run.
  assert ((if he_profiling_mode o
           then if negb (he_scheduler o)
                then throw (runtime_error
                  "Heterogeneous scheduler must be enabled during profiling.")
                else if bool_decide (executor o ≠ "Dataflow")
                     then throw (runtime_error
                       "Profiling mode works only with 'Dataflow' executor")
                     else mret ()
           else mret ()) w = (Ok tt, w)) as ->.
  { destruct Hmode as [-> | [-> Hdf]]; [reflexivity |].
    cbn [negb]. rewrite bool_decide_eq_false_2 by (intros Hne; auto).
    destruct (he_profiling_mode o); reflexivity. }
  rewrite bind_run.
  rewrite (bool_decide_eq_false_2 _ Hpath). cbn [negb].
  rewrite (bool_decide_eq_true_2 _ Hexec). reflexivity.
Qed.

Lemma observe_nil (w : World) : observe [] w = w.
Proof. destruct w. unfold observe. cbn. rewrite app_nil_r. reflexivity. Qed.

Lemma observe_app es1 es2 (w : World) :
  observe es2 (observe es1 w) = observe (es1 ++ es2) w.
Proof. unfold observe. cbn. rewrite app_assoc. reflexivity. Qed.

(** Converting the operations [l] of a graph, from the trainable graph
    [tg] on: every operation of [l] is replaced at its own index, the
    others stay, and the generated index never differs. *)
Lemma convert_operations this subg_index
    (l : list (nat * IOperation)) tg (w : World) :
  NoDup l.*1 →
  match fold_each l (convert_operation this subg_index) tg w with
  | (Ok tg', w') =>
      (∀ k op, (k, op) ∈ l →
         ∃ top, converter (_training_info this) op = inr top ∧
                t_operations tg' !! k = Some (Replacement top)) ∧
      (∀ k, k ∉ l.*1 → t_operations tg' !! k = t_operations tg !! k) ∧
      t_operands tg' = t_operands tg ∧
      w' = observe (convert_events subg_index l) w
  | (Throw e, _) =>
      ∃ k op, (k, op) ∈ l ∧ converter (_training_info this) op = inl e
  | (Abort, _) => False
  end.
Proof.
  revert tg w. induction l as [| [k op] l IH]; intros tg w Hnodup.
  - cbn. split; [intros ? ? Hin; inversion Hin |].
    split; [reflexivity |]. split; [reflexivity |].
    symmetry. apply observe_nil.
  - apply NoDup_cons in Hnodup as [Hk Hnodup].
    cbn [fold_each]. rewrite bind_run.
    unfold convert_operation at 1. rewrite bind_run.
    change (log (EvConvert subg_index k) w)
      with (Ok tt, observe [EvConvert subg_index k] w).
    cbv iota beta. rewrite bind_run.
    destruct (converter (_training_info this) op) as [e | top] eqn:Hconv.
    + exists k, op. split; [in_list | exact Hconv].
    + cbn [mret M_ret]. cbv iota beta.
      unfold replaceOperation, lift, assert.
      rewrite bind_run. cbv beta iota.
      rewrite bool_decide_eq_true_2 by reflexivity.
      rewrite bind_run. cbn [mret M_ret]. cbv beta iota.
      match goal with
      | |- context [fold_each l _ ?tg1 ?w1] =>
          specialize (IH tg1 w1 Hnodup);
            destruct (fold_each l (convert_operation this subg_index) tg1 w1)
            as [[tg' | e |] w']
      end.
      * destruct IH as (Hl & Hother & Hoperands & ->).
        split; [| split; [| split]].
        -- intros k' op' Hin. apply elem_of_cons in Hin as [Heq | Hin].
           ++ injection Heq as -> ->. exists top. split; [exact Hconv |].
              rewrite Hother by exact Hk. cbn. apply lookup_insert_eq.
           ++ apply Hl, Hin.
        -- intros k' Hk'. cbn in Hk'. apply not_elem_of_cons in Hk' as [? ?].
           rewrite Hother by assumption. cbn.
           apply lookup_insert_ne. congruence.
        -- rewrite Hoperands. reflexivity.
        -- rewrite observe_app. reflexivity.
      * destruct IH as (k' & op' & Hin & Hthrow).
        exists k', op'. split; [apply list_elem_of_further, Hin | exact Hthrow].
      * exact IH.
Qed.

End compiler_facts.

(** * The claims *)

Section kernel_claims.
Import cker spec.
Context {T : Type} `{Scalar T}.

(** C1.  For [kAdd], [BinaryArithmeticGrad] fills the lhs buffer with
    the incoming gradient reduced to the lhs shape and then the rhs
    buffer with the incoming gradient reduced to the rhs shape.  For an
    incoming gradient of shape [2,3] and operand shapes [2,3] and
    [1,3], the lhs gradient is the incoming gradient element for
    element and the rhs gradient is its sum over axis 0. *)
Theorem BinaryArithmeticGrad_add_reduces_to_operands :
  (∀ incoming_shape (incoming_data : list T) lhs_grad_shape rhs_grad_shape
     (lhs rhs : list T),
     BinaryArithmeticGrad incoming_shape incoming_data
       lhs_grad_shape rhs_grad_shape kAdd (lhs, rhs)
     = match BroadcastTo incoming_shape incoming_data lhs_grad_shape lhs with
       | (Ok _, lhs') =>
           let '(r, rhs') :=
             BroadcastTo incoming_shape incoming_data rhs_grad_shape rhs in
           (r, (lhs', rhs'))
       | (r, lhs') => (r, (lhs', rhs))
       end) ∧
  (∀ g00 g01 g02 g10 g11 g12 l0 l1 l2 l3 l4 l5 r0 r1 r2 : T,
     BinaryArithmeticGrad [2; 3] [g00; g01; g02; g10; g11; g12]
       [2; 3] [1; 3] kAdd ([l0; l1; l2; l3; l4; l5], [r0; r1; r2])
     = (Ok tt, ([g00; g01; g02; g10; g11; g12],
                [fadd g00 g10; fadd g01 g11; fadd g02 g12]))).
Proof.
  split.
  - intros. apply BinaryArithmeticGrad_add.
  - intros. reflexivity.
Qed.

(** C2, as amended.  With identical shapes, [MSEGrad] writes
    [grad[i] = -2 * (yTrue[i] - yPred[i]) / size] for every flat index
    [i], where [size] is the number of elements of the whole tensor,
    the batch dimension included; with shapes that are not identical it
    throws a shape-mismatch error and leaves the buffer as it was. *)
Theorem MSEGrad_divides_by_flat_size y_pred_shape (y_pred : list T)
    y_true_shape (y_true : list T) grad_shape (buf : list T) :
  (y_pred_shape = y_true_shape ∧ y_pred_shape = grad_shape →
   INT_MIN ≤ FlatSize grad_shape ≤ INT_MAX →
   FlatSize grad_shape ≤ Z.of_nat (length y_pred) →
   FlatSize grad_shape ≤ Z.of_nat (length y_true) →
   FlatSize grad_shape ≤ Z.of_nat (length buf) →
   returns (MSEGrad y_pred_shape y_pred y_true_shape y_true grad_shape) buf
     (λ _ grad, MSEGrad_post (FlatSize grad_shape) (FlatSize grad_shape)
                  y_pred y_true buf grad)) ∧
  (¬ (y_pred_shape = y_true_shape ∧ y_pred_shape = grad_shape) →
   ∃ e, e ∈ MSEGrad_shape_mismatch ∧
        MSEGrad y_pred_shape y_pred y_true_shape y_true grad_shape buf
        = (Throw e, buf)).
Proof.
  split.
  - intros [<- <-]. apply MSEGrad_ok.
  - apply MSEGrad_mismatch.
Qed.

(** C5.  For a [yPred] with a batch dimension, [MSE] returns exactly
    when [yTrue] has the shape of [yPred] and the output shape is
    one-dimensional with the batch extent of [yPred]; it then writes,
    for every batch row, the mean of the squared elementwise
    differences over the flattened rest of the row: the differences
    are squared in the element type, added up in element order in a
    [float], and the sum is divided by the element count of the row.
    Otherwise it throws a shape-mismatch error and leaves the buffer
    as it was.  This holds for every element type [T], with [F] the
    [float] of the accumulator. *)
Theorem MSE_mean_per_batch_row {F : Type} `{Scalar F} `{FloatSum F T}
    batch rest (y_pred : list T) y_true_shape
    (y_true : list T) output_shape (buf : list T) :
  (output_shape = [batch] ∧ batch :: rest = y_true_shape →
   0 ≤ FlatSize rest ≤ INT_MAX →
   batch * FlatSize rest ≤ INT_MAX →
   batch * FlatSize rest ≤ Z.of_nat (length y_pred) →
   batch * FlatSize rest ≤ Z.of_nat (length y_true) →
   batch ≤ Z.of_nat (length buf) →
   returns (MSE (batch :: rest) y_pred y_true_shape y_true output_shape) buf
     (λ _ out, MSE_post batch (FlatSize rest) y_pred y_true buf out)) ∧
  (¬ (output_shape = [batch] ∧ batch :: rest = y_true_shape) →
   ∃ e, e ∈ MSE_shape_mismatch ∧
        MSE (batch :: rest) y_pred y_true_shape y_true output_shape buf
        = (Throw e, buf)).
Proof.
  split.
  - intros [-> <-]. apply MSE_ok.
  - apply MSE_mismatch.
Qed.

(** C8.  For [kSub], [kMul] and [kDiv], [BinaryArithmeticGrad] throws
    and leaves both buffers as they were; a call that returns was made
    with [kAdd]. *)
Theorem BinaryArithmeticGrad_only_add incoming_shape
    (incoming_data : list T) lhs_grad_shape rhs_grad_shape kind
    (bufs : list T * list T) :
  (kind ≠ kAdd →
   BinaryArithmeticGrad incoming_shape incoming_data
     lhs_grad_shape rhs_grad_shape kind bufs
   = (Throw (runtime_error "Unsupported Binary Arithmetic Operation"),
      bufs)) ∧
  (∀ bufs',
     BinaryArithmeticGrad incoming_shape incoming_data
       lhs_grad_shape rhs_grad_shape kind bufs = (Ok tt, bufs') →
     kind = kAdd).
Proof.
  split.
  - apply BinaryArithmeticGrad_unsupported.
  - intros bufs' Hok. destruct kind; [reflexivity | | |];
      rewrite BinaryArithmeticGrad_unsupported in Hok by discriminate;
      discriminate Hok.
Qed.

End kernel_claims.

Section cross_entropy_exact.
Import cker spec.
Context {T : Type} `{Scalar T}.
Variable log : T → T.

(** The algorithm in exact arithmetic (the operations of [T] form a
    commutative ring, and [==] holds of equal values only): for every
    [yPred] that passes the range check, the value written to
    [output[0]] is [-sum(yTrue * log(max(yPred, 1e-20))) / batchSize],
    the sum taken over all elements of all batch rows, and skipping
    the terms whose label is zero does not change it.  On floats the
    additions round, and the order in which the kernel adds matters. *)
Lemma CategoricalCrossEntropy_exact_arithmetic (y_pred y_true : list T)
    batch_size input_size (buf : list T) :
  ring_theory fzero (of_int 1) fadd fmul fsub fneg eq →
  of_int 0 = fzero →
  (∀ a b : T, feq a b = true → a = b) →
  0 ≤ batch_size → 0 ≤ input_size →
  batch_size * input_size ≤ INT_MAX →
  batch_size * input_size ≤ Z.of_nat (length y_pred) →
  batch_size * input_size ≤ Z.of_nat (length y_true) →
  (0 < length buf)%nat →
  (∀ (k : nat) x, Z.of_nat k < batch_size * input_size →
     y_pred !! k = Some x → ¬ outside_unit x) →
  CategoricalCrossEntropy log y_pred y_true batch_size input_size buf
  = (Ok tt,
     <[0%nat := CategoricalCrossEntropy_value log batch_size input_size
                  y_pred y_true]> buf).
Proof.
  intros Tring Hzero Hfeq Hbatch Hinput Hmax Hp Ht Hbuf Hunit.
  rewrite <- (Z2Nat.id batch_size), <- (Z2Nat.id input_size) in * by lia.
  apply (CategoricalCrossEntropy_exact_nat log Tring Hzero Hfeq);
    [lia | lia | lia | exact Hbuf |].
  intros k Hk.
  destruct (lookup_lt_is_Some_2 y_pred k ltac:(lia)) as [x Hx].
  exists x. split; [exact Hx |].
  specialize (Hunit k x ltac:(lia) Hx). unfold outside_unit in Hunit.
  destruct (fgt x (of_int 1)), (flt x (of_int 0)); tauto.
Qed.

End cross_entropy_exact.

Section compiler_claims.
Import onert spec.
Context `{Collaborators}.

(** C3.  [compile] with profiling and the executor "Linear", or with a
    minmax path and an executor other than "Linear", throws a
    configuration error and leaves the package, the options and the
    instrumentation as they were: no pass has run and no graph has
    changed. *)
Theorem compile_rejects_option_conflict this (w : World) o :
  _options w = Some o →
  (he_profiling_mode o = true ∧ executor o = "Linear") ∨
  (minmax_filepath o ≠ "" ∧ executor o ≠ "Linear") →
  ∃ e, e ∈ configuration_errors ∧ compile this w = (Throw e, w).
Proof.
  intros Ho Hconflict. unfold configuration_errors.
  destruct (he_profiling_mode o) eqn:Hprof.
  - destruct (he_scheduler o) eqn:Hsched.
    + destruct (decide (executor o = "Dataflow")) as [Hdf | Hdf].
      * destruct Hconflict as [[_ Hlin] | [Hpath Hexec]];
          [rewrite Hlin in Hdf; discriminate |].
        eexists. split;
          [| apply (compile_minmax_without_linear _ _ o); auto].
        in_list.
      * eexists. split;
          [| apply (compile_profiling_without_dataflow _ _ o); auto].
        in_list.
    + eexists. split;
        [| apply (compile_profiling_without_scheduler _ _ o); auto].
      in_list.
  - destruct Hconflict as [[? _] | [Hpath Hexec]]; [discriminate |].
    eexists. split;
      [| apply (compile_minmax_without_linear _ _ o); auto].
    in_list.
Qed.

(** C4.  Converting an inference graph replaces every operation at its
    own index: the conversion never fails the index assertion, it
    throws only what the operation converter throws, and when it
    returns the trainable graph has the operation indices of the
    inference graph, each holding the converted operation; the
    operations are visited in index order.  A generated index that
    differed would fail the assertion, which is not an exception. *)
Theorem convert_subgraph_preserves_indices this subg_index subg (w : World) :
  match convert_subgraph this subg_index subg w with
  | (Ok tg, w') =>
      dom (t_operations tg) = dom (operations subg) ∧
      (∀ k op, operations subg !! k = Some op →
         ∃ top, converter (_training_info this) op = inr top ∧
                t_operations tg !! k = Some (Replacement top)) ∧
      t_operands tg = operands subg ∧
      w' = observe (convert_events subg_index (entries (operations subg))) w
  | (Throw e, _) =>
      ∃ k op, operations subg !! k = Some op ∧
              converter (_training_info this) op = inl e
  | (Abort, _) => False
  end ∧
  Sorted key_le (entries (operations subg)) ∧
  (∀ gen_index op_index : nat, gen_index ≠ op_index →
     assert (bool_decide (gen_index = op_index)) w = (Abort, w)).
Proof.
  split; [| split; [apply entries_sorted |]];
    [| intros gen_index op_index Hne; unfold assert;
       rewrite bool_decide_eq_false_2 by exact Hne; reflexivity].
  unfold convert_subgraph.
  pose proof (convert_operations this subg_index (entries (operations subg))
                (TrainableGraph_of subg) w (NoDup_fst_entries _)) as Hfold.
  destruct (fold_each (entries (operations subg))
              (convert_operation this subg_index) (TrainableGraph_of subg) w)
    as [[tg | e |] w']; cbv beta iota in Hfold |- *.
  - destruct Hfold as (Hl & Hother & Hoperands & ->).
    assert (∀ k op, operations subg !! k = Some op →
              ∃ top, converter (_training_info this) op = inr top ∧
                     t_operations tg !! k = Some (Replacement top)) as Hall
      by (intros k op Hk; apply Hl, elem_of_entries, Hk).
    split; [| split; [exact Hall | split; [exact Hoperands | reflexivity]]].
    apply set_eq. intros k. rewrite !elem_of_dom.
    destruct (operations subg !! k) as [op |] eqn:Hk.
    + destruct (Hall k op Hk) as (top & _ & ->). split; eauto.
    + rewrite Hother.
      * unfold TrainableGraph_of. cbn [t_operations].
        rewrite lookup_fmap, Hk. cbn.
        split; intros [? Hsome]; discriminate Hsome.
      * intros Hin. apply list_elem_of_fmap in Hin as ([k' op] & -> & Hin).
        apply elem_of_entries in Hin. cbn in Hk. congruence.
  - destruct Hfold as (k & op & Hin & Hthrow).
    exists k, op. split; [apply elem_of_entries, Hin | exact Hthrow].
  - exact Hfold.
Qed.

(** C9.  Constructing a [TrainingCompiler] for a package with more
    than one model, or whose primary model has more than one subgraph,
    throws an unsupported-model error and leaves everything as it was;
    so does constructing and then compiling. *)
Theorem TrainingCompiler_rejects_multiple training_info (w : World) :
  copts w ≠ [] →
  (1 < model_count (nnpkg w))%nat ∨
  (1 < subgraphs_count (primary_model (nnpkg w)))%nat →
  ∃ e, e ∈ unsupported_model_errors ∧
       TrainingCompiler_new training_info w = (Throw e, w) ∧
       (TrainingCompiler_new training_info ≫= compile) w = (Throw e, w).
Proof.
  intros Hcopts Hmany.
  destruct (TrainingCompiler_new_rejects training_info w Hcopts Hmany)
    as (e & He & Hnew).
  exists e. split; [exact He | split; [exact Hnew |]].
  apply bind_throw, Hnew.
Qed.

(** C10.  With profiling set and the heterogeneous scheduler unset,
    [compile] throws a configuration error and leaves everything as it
    was, whatever the executor, "Dataflow" included. *)
Theorem compile_profiling_requires_scheduler this (w : World) o :
  _options w = Some o →
  he_profiling_mode o = true → he_scheduler o = false →
  compile this w
  = (Throw (runtime_error
       "Heterogeneous scheduler must be enabled during profiling."), w) ∧
  runtime_error "Heterogeneous scheduler must be enabled during profiling."
    ∈ configuration_errors.
Proof.
  intros Ho Hprof Hsched. split.
  - apply (compile_profiling_without_scheduler _ _ o); assumption.
  - unfold configuration_errors. in_list.
Qed.

End compiler_claims.

(** * Concrete runs *)

Section float_runs.
Import cker spec binary32.

(** The claim C2 as first stated, with [size] the element count of one
    batch row, fails on two rows of one element: [MSEGrad] writes
    [-2 * (1 - 0) / 2 = -1] where that claim has [-2 * (1 - 0) / 1 = -2]. *)
Lemma MSEGrad_per_batch_count_counterexample :
  let shape := [2; 1] in
  let y_pred := [of_Z 0; of_Z 0] in
  let y_true := [of_Z 1; of_Z 0] in
  ∃ grad,
    MSEGrad shape y_pred shape y_true shape [of_Z 0; of_Z 0] = (Ok tt, grad) ∧
    grad !! 0%nat = Some (of_Z (-1)) ∧
    MSEGrad_value (per_batch_count shape) (of_Z 1) (of_Z 0) = of_Z (-2) ∧
    grad !! 0%nat
    ≠ Some (MSEGrad_value (per_batch_count shape) (of_Z 1) (of_Z 0)).
Proof.
  eexists. split; [vm_compute; reflexivity |].
  split; [reflexivity |]. split; [reflexivity |].
  vm_compute. discriminate.
Qed.

Lemma MSEGrad_divides_by_flat_size_witness :
  let shape := [2; 1] in
  let y_pred := [of_Z 0; of_Z 0] in
  let y_true := [of_Z 1; of_Z 0] in
  let buf := [of_Z 7; of_Z 7] in
  returns (MSEGrad shape y_pred shape y_true shape) buf
    (λ _ grad, MSEGrad_post 2 2 y_pred y_true buf grad).
Proof.
  intros shape y_pred y_true buf.
  apply (proj1 (MSEGrad_divides_by_flat_size
                  shape y_pred shape y_true shape buf)).
  - split; reflexivity.
  - vm_compute. split; discriminate.
  - vm_compute. discriminate.
  - vm_compute. discriminate.
  - vm_compute. discriminate.
Defined.

Lemma MSE_mean_per_batch_row_witness :
  let y_pred := [of_Z 1; of_Z 3; of_Z 0; of_Z 0] in
  let y_true := [of_Z 0; of_Z 0; of_Z 1; of_Z 0] in
  let buf := [of_Z 7; of_Z 7] in
  returns (MSE [2; 2] y_pred [2; 2] y_true [2]) buf
    (λ _ out, MSE_post 2 2 y_pred y_true buf out).
Proof.
  intros y_pred y_true buf.
  apply (proj1 (MSE_mean_per_batch_row 2 [2] y_pred [2; 2] y_true [2] buf)).
  - split; reflexivity.
  - vm_compute. split; discriminate.
  - vm_compute. discriminate.
  - vm_compute. discriminate.
  - vm_compute. discriminate.
  - vm_compute. discriminate.
Defined.

(** With [T = double] the running sum is still a [float]: for the one
    element [0.1] against [0], the square is [0.010000000000000002] in
    [double], and [MSE] writes [0.01f], that is
    [0.00999999977648258209228515625]. *)
Example MSE_double_sum_in_float :
  let tenth := binary64.Double (S754_finite false 7205759403792794 (-56)) in
  MSE [1; 1] [tenth] [1; 1] [binary64.of_Z 0] [1] [binary64.of_Z 7]
  = (Ok tt, [binary64.of_float (S754_finite false 10737418 (-30))]) ∧
  fmul tenth tenth
  = binary64.Double (S754_finite false 5764607523034236 (-59)) ∧
  binary64.of_float (S754_finite false 10737418 (-30))
  = binary64.Double (S754_finite false 5764607394185216 (-59)).
Proof. vm_compute. repeat split. Qed.

(** [-0.1] is rejected. *)
Example CategoricalCrossEntropy_rejects_negative :
  let y_pred := [S754_finite true 13421773 (-27); of_scaled 1 (-1)] in
  let y_true := [of_Z 0; of_Z 1] in
  let buf := [of_Z 7; of_Z 7] in
  CategoricalCrossEntropy (λ x, x) y_pred y_true 1 2 buf
  = (Throw (runtime_error
       "cker::CategoricalCrossEntropy: y_pred data is not logit data."),
     buf) ∧
  CategoricalCrossEntropyGrad y_pred y_true 1 2 buf
  = (Throw (runtime_error
       "cker::CategoricalCrossEntropyGrad: y_pred data is not logit data."),
     buf).
Proof. split; reflexivity. Qed.

(** A zero label: the kernel skips its term, the loop that skips nothing
    adds a zero; both write [-(0.5 * 1) / 1]. *)
Example CategoricalCrossEntropy_zero_label :
  let y_pred := [of_scaled 1 (-1); of_scaled 1 (-1)] in
  let y_true := [of_Z 1; of_Z 0] in
  CategoricalCrossEntropy (λ x, x) y_pred y_true 1 2 [of_Z 7]
  = (Ok tt, [of_scaled (-1) (-1)]) ∧
  CategoricalCrossEntropy_all_terms (λ x, x) y_pred y_true 1 2 [of_Z 7]
  = (Ok tt, [of_scaled (-1) (-1)]).
Proof. split; reflexivity. Qed.

Lemma BinaryArithmeticGrad_only_add_witness :
  let bufs := ([of_Z 7], [of_Z 7]) in
  BinaryArithmeticGrad [1] [of_Z 1] [1] [1] kSub bufs
  = (Throw (runtime_error "Unsupported Binary Arithmetic Operation"), bufs).
Proof.
  intros bufs.
  apply (proj1 (BinaryArithmeticGrad_only_add [1] [of_Z 1] [1] [1] kSub bufs)).
  discriminate.
Defined.

End float_runs.

Section real_runs.
Import cker spec real.
Local Open Scope R_scope.

Lemma Reqb_eq (a b : R) : Reqb a b = true → a = b.
Proof. unfold Reqb. destruct (Req_dec_T a b); [auto | discriminate]. Qed.

Lemma Rltb_false (a b : R) : b <= a → Rltb a b = false.
Proof. intros Hle. unfold Rltb. destruct (Rlt_dec a b); [lra | reflexivity]. Qed.

(** On the reals, with [ln] for the logarithm. *)
Lemma CategoricalCrossEntropy_exact_arithmetic_on_reals :
  let y_pred := [/ 2; / 2] in
  let y_true := [1; 0] in
  CategoricalCrossEntropy ln y_pred y_true 1 2 [0]
  = (Ok tt, [CategoricalCrossEntropy_value ln 1 2 y_pred y_true]).
Proof.
  intros y_pred y_true.
  apply (CategoricalCrossEntropy_exact_arithmetic ln y_pred y_true 1 2 [0]).
  - exact RTheory.
  - reflexivity.
  - exact Reqb_eq.
  - discriminate.
  - discriminate.
  - vm_compute. discriminate.
  - vm_compute. discriminate.
  - vm_compute. discriminate.
  - apply Nat.lt_0_1.
  - intros k x Hk Hx [Hgt | Hlt].
    + destruct k as [| [| k]]; [| | discriminate Hx];
        injection Hx as <-;
        unfold fgt in Hgt; cbn in Hgt; rewrite Rltb_false in Hgt by lra;
        discriminate Hgt.
    + destruct k as [| [| k]]; [| | discriminate Hx];
        injection Hx as <-;
        cbn in Hlt; rewrite Rltb_false in Hlt by lra;
        discriminate Hlt.
Defined.

End real_runs.

Section compiler_runs.
Import onert spec fixture.
#[local] Existing Instance unit_IR.
#[local] Existing Instance idle.

(** A package of one model with one subgraph compiles: the passes run
    in order, the operations are converted in index order, and one
    executor is built. *)
Example compile_single_subgraph :
  let w := world (model [graph]) [] (options "Linear" false false "") in
  ∃ artifact,
    compile this w
    = (Ok artifact,
       observe
         [EvForceInternalOptions;
          EvPass ConstantOutputPass 0; EvPass OddOutputPass 0;
          EvPass UnusedOperandEliminationPass 0;
          EvConvert 0 0; EvConvert 0 5;
          EvLower 0; EvInfer; EvValidate 0; EvExecutor 0] w) ∧
    dom (_executors artifact) = {[ (0%nat, 0%nat) ]}.
Proof.
  eexists. split; [vm_compute; reflexivity |].
  vm_compute. reflexivity.
Qed.

Lemma compile_rejects_option_conflict_witness :
  let o := options "Linear" true true "" in
  let w := world (model [graph]) [] o in
  ∃ e, e ∈ configuration_errors ∧ compile this w = (Throw e, w).
Proof.
  intros o w. apply (compile_rejects_option_conflict this w o).
  - reflexivity.
  - left. split; reflexivity.
Defined.

Lemma convert_subgraph_preserves_indices_witness :
  let w := world (model [graph]) [] (options "Linear" false false "") in
  match convert_subgraph this 0%nat graph w with
  | (Ok tg, w') =>
      dom (t_operations tg) = dom (operations graph) ∧
      (∀ k op, operations graph !! k = Some op →
         ∃ top, converter (_training_info this) op = inr top ∧
                t_operations tg !! k = Some (Replacement top)) ∧
      t_operands tg = operands graph ∧
      w' = observe (convert_events 0%nat (entries (operations graph))) w
  | (Throw e, _) =>
      ∃ k op, operations graph !! k = Some op ∧
              converter (_training_info this) op = inl e
  | (Abort, _) => False
  end.
Proof.
  intros w. exact (proj1 (convert_subgraph_preserves_indices this 0%nat graph w)).
Defined.

Lemma TrainingCompiler_rejects_multiple_witness :
  let w := world (model [graph; graph]) []
             (options "Linear" false false "") in
  ∃ e, e ∈ unsupported_model_errors ∧
       TrainingCompiler_new training_info w = (Throw e, w) ∧
       (TrainingCompiler_new training_info ≫= compile) w = (Throw e, w).
Proof.
  intros w. apply (TrainingCompiler_rejects_multiple training_info w).
  - discriminate.
  - right. vm_compute. apply le_n.
Defined.

Lemma compile_profiling_requires_scheduler_witness :
  let o := options "Dataflow" false true "" in
  let w := world (model [graph]) [] o in
  compile this w
  = (Throw (runtime_error
       "Heterogeneous scheduler must be enabled during profiling."), w).
Proof.
  intros o w.
  apply (proj1 (compile_profiling_requires_scheduler this w o
                  eq_refl eq_refl eq_refl)).
Defined.

End compiler_runs.

(** * Further properties *)

(** ** The loss kernels *)

Section further_loss_facts.
Import cker spec.
Context {T : Type} `{Scalar T}.

Lemma checkValue_from_take {St} n (lo : nat) (data : list T) min max
    (st : St) :
  (lo + n ≤ length data)%nat →
  checkValue_from n (Z.of_nat lo) data min max st
  = (Ok (forallb (within min max) (take n (drop lo data))), st).
Proof.
  revert lo. induction n as [| n IH]; intros lo Hlen.
  - reflexivity.
  - destruct (lookup_lt_is_Some_2 data lo ltac:(lia)) as [x Hx].
    cbn [checkValue_from].
    rewrite (bind_ok _ _ _ _ _ (read_ok data lo x st Hx)).
    rewrite (drop_S _ _ _ Hx). cbn [take forallb]. unfold within at 1.
    destruct (fgt x max || flt x min); cbn [negb andb]; [reflexivity |].
    replace (Z.of_nat lo + 1) with (Z.of_nat (S lo)) by lia.
    apply IH. lia.
Qed.

Lemma checkValue_take {St} (data : list T) size min max (st : St) :
  size ≤ Z.of_nat (length data) →
  checkValue data size min max st
  = (Ok (forallb (within min max) (take (Z.to_nat size) data)), st).
Proof.
  intros Hsize. unfold checkValue.
  apply (checkValue_from_take _ 0). lia.
Qed.

Lemma CategoricalCrossEntropyGrad_ok (y_pred y_true buf : list T)
    batch_size input_size :
  0 ≤ batch_size → 0 ≤ input_size →
  batch_size * input_size ≤ INT_MAX →
  batch_size * input_size ≤ Z.of_nat (length y_pred) →
  batch_size * input_size ≤ Z.of_nat (length y_true) →
  batch_size * input_size ≤ Z.of_nat (length buf) →
  forallb (within (of_int 0) (of_int 1))
    (take (Z.to_nat (batch_size * input_size)) y_pred) = true →
  returns (CategoricalCrossEntropyGrad y_pred y_true batch_size input_size)
    buf
    (λ _ grad,
       CategoricalCrossEntropyGrad_post (batch_size * input_size)
         y_pred y_true buf grad).
Proof.
  intros Hb Hi Hmax Hp Ht Hbuf Hunit. unfold CategoricalCrossEntropyGrad.
  rewrite (Z.mul_comm input_size batch_size).
  apply returns_bind, returns_int; [unfold INT_MIN; nia |].
  apply returns_bind.
  apply (returns_eq _ _ _ _ _ (checkValue_take _ _ _ _ _ Hp)).
  rewrite Hunit. cbn [negb].
  set (ni := Z.to_nat input_size).
  pose (I := λ (n : nat) (grad : list T),
    length grad = length buf ∧
    (∀ (k : nat) t p, (k < n)%nat →
       y_true !! k = Some t → y_pred !! k = Some p →
       grad !! k = Some (CategoricalCrossEntropyGrad_value t p)) ∧
    (∀ k : nat, (n ≤ k)%nat → grad !! k = buf !! k)).
  eapply returns_mono.
  - apply (returns_for_lt (λ kb, I (kb * ni)%nat)).
    + split; [reflexivity | split]; [intros; lia | intros; reflexivity].
    + intros kb grad Hkb Hinv.
      assert (Z.of_nat kb * input_size + input_size
              ≤ batch_size * input_size) as Hrow by nia.
      apply returns_bind, returns_int; [unfold INT_MIN; nia |].
      eapply returns_mono.
      * apply (returns_for_lt (λ ki, I (kb * ni + ki)%nat)).
        -- rewrite Nat.add_0_r. exact Hinv.
        -- intros ki grad' Hki (Hlen & Hdone & Hrest).
           assert (Z.of_nat kb * input_size + Z.of_nat ki
                   = Z.of_nat (kb * ni + ki)) as -> by (unfold ni; nia).
           assert (Z.of_nat (kb * ni + ki) < batch_size * input_size)
             as Hk by (unfold ni; nia).
           apply returns_bind, returns_int; [unfold INT_MIN; lia |].
           destruct (lookup_lt_is_Some_2 y_true (kb * ni + ki) ltac:(lia))
             as [t Hkt].
           destruct (lookup_lt_is_Some_2 y_pred (kb * ni + ki) ltac:(lia))
             as [p Hkp].
           apply returns_bind, (returns_read _ _ t); [exact Hkt |].
           apply returns_bind, (returns_read _ _ p); [exact Hkp |].
           apply returns_write; [lia |].
           split; [rewrite length_insert; exact Hlen | split].
           ++ intros k t' p' Hlt Hit Hip.
              destruct (decide (k = kb * ni + ki)%nat) as [-> | Hne].
              ** rewrite list_lookup_insert_eq by lia.
                 rewrite Hkt in Hit. rewrite Hkp in Hip.
                 injection Hit as <-. injection Hip as <-. reflexivity.
              ** rewrite list_lookup_insert_ne by auto.
                 apply Hdone; [lia | assumption | assumption].
           ++ intros k Hle. rewrite list_lookup_insert_ne by lia.
              apply Hrest. lia.
      * intros [] grad' Hinv'. cbv beta in Hinv' |- *.
        replace (S kb * ni)%nat with (kb * ni + Z.to_nat input_size)%nat
          by (unfold ni; lia).
        exact Hinv'.
  - intros [] grad (Hlen & Hdone & Hrest).
    split; [exact Hlen | split].
    + intros k t p Hk. apply Hdone. unfold ni. nia.
    + intros k Hk. apply Hrest. unfold ni. nia.
Qed.

Section cross_entropy_rows.
Variable log : T → T.
Variables y_pred y_true : list T.

(** One row, with no law of arithmetic assumed: the inner loop leaves
    the loss of row [b] in [sum[b]]. *)
Lemma cross_entropy_row_loop (b I : nat) (sum : list T) (buf : list T) :
  sum !! b = Some fzero →
  Z.of_nat (b * I + I) ≤ INT_MAX →
  (b * I + I ≤ length y_pred)%nat →
  (b * I + I ≤ length y_true)%nat →
  returns
    (fold_lt (Z.of_nat I) (λ i sum,
       idx ← int (Z.of_nat b * Z.of_nat I + i);
       t ← read y_true idx;
       if fne t (of_int 0) then
         p ← read y_pred idx;
         add_at sum (Z.of_nat b) (fmul (fneg (log (fmax p eps))) t)
       else mret sum) sum) buf
    (λ sum' buf',
       buf' = buf ∧
       sum' = <[b := cross_entropy_row log
                       (row (Z.of_nat I) (Z.of_nat b) y_pred)
                       (row (Z.of_nat I) (Z.of_nat b) y_true)]> sum).
Proof.
  intros Hb Hmax Hp Ht.
  assert (INT_MIN ≤ 0) as Hmin by (unfold INT_MIN; lia).
  set (ps := row (Z.of_nat I) (Z.of_nat b) y_pred).
  set (ts := row (Z.of_nat I) (Z.of_nat b) y_true).
  assert (length ps = I) as Hps
    by (unfold ps; rewrite row_length; lia).
  assert (length ts = I) as Hts
    by (unfold ts; rewrite row_length; lia).
  pose (J := λ (k : nat) (sum' : list T) (buf' : list T),
    buf' = buf ∧
    sum' = <[b := cross_entropy_row log (take k ps) (take k ts)]> sum).
  eapply returns_mono.
  - apply (returns_fold_lt J).
    + split; [reflexivity |]. symmetry. apply list_insert_id. exact Hb.
    + rewrite Nat2Z.id. intros k sum' buf' Hk [-> ->].
      destruct (lookup_lt_is_Some_2 y_pred (b * I + k) ltac:(lia))
        as [p Hkp].
      destruct (lookup_lt_is_Some_2 y_true (b * I + k) ltac:(lia))
        as [t Hkt].
      assert (ps !! k = Some p) as Hpk.
      { unfold ps. rewrite row_lookup by lia.
        replace (Z.to_nat (Z.of_nat b * Z.of_nat I + Z.of_nat k))
          with (b * I + k)%nat by lia. exact Hkp. }
      assert (ts !! k = Some t) as Htk.
      { unfold ts. rewrite row_lookup by lia.
        replace (Z.to_nat (Z.of_nat b * Z.of_nat I + Z.of_nat k))
          with (b * I + k)%nat by lia. exact Hkt. }
      assert (cross_entropy_row log (take (S k) ps) (take (S k) ts)
              = (if fne t (of_int 0)
                 then fadd (cross_entropy_row log (take k ps) (take k ts))
                        (fmul (fneg (log (fmax p eps))) t)
                 else cross_entropy_row log (take k ps) (take k ts)))
        as Hstep.
      { unfold cross_entropy_row.
        rewrite (take_S_r _ _ _ Hpk), (take_S_r _ _ _ Htk).
        rewrite zip_with_app by (rewrite !length_take; lia).
        rewrite foldl_app. reflexivity. }
      apply returns_bind, returns_int; [lia |].
      replace (Z.of_nat b * Z.of_nat I + Z.of_nat k)
        with (Z.of_nat (b * I + k)) by lia.
      apply returns_bind, (returns_read _ _ t); [exact Hkt |].
      destruct (fne t (of_int 0)).
      * apply returns_bind, (returns_read _ _ p); [exact Hkp |].
        unfold add_at.
        apply returns_bind,
          (returns_read _ _
             (cross_entropy_row log (take k ps) (take k ts))).
        { apply list_lookup_insert_eq. apply lookup_lt_Some in Hb. lia. }
        apply returns_ret. split; [reflexivity |].
        rewrite Hstep, Nat2Z.id, list_insert_insert_eq. reflexivity.
      * apply returns_ret. split; [reflexivity |].
        rewrite Hstep. reflexivity.
  - rewrite Nat2Z.id. intros sum' buf' [-> ->]. split; [reflexivity |].
    rewrite !firstn_all2 by lia. reflexivity.
Qed.

Lemma CategoricalCrossEntropy_rows_step (I B b : nat) :
  (b < B)%nat →
  <[b := cross_entropy_row log
           (row (Z.of_nat I) (Z.of_nat b) y_pred)
           (row (Z.of_nat I) (Z.of_nat b) y_true)]>
    (CategoricalCrossEntropy_rows log (Z.of_nat b) (Z.of_nat I)
       y_pred y_true ++ replicate (B - b) fzero)
  = CategoricalCrossEntropy_rows log (Z.of_nat (S b)) (Z.of_nat I)
      y_pred y_true ++ replicate (B - S b) fzero.
Proof.
  intros Hb. unfold CategoricalCrossEntropy_rows. rewrite !Nat2Z.id.
  rewrite insert_app_r_alt by (rewrite length_fmap, length_seq; lia).
  rewrite length_fmap, length_seq, Nat.sub_diag.
  replace (B - b)%nat with (S (B - S b)) by lia.
  rewrite seq_S, fmap_app, <- app_assoc. reflexivity.
Qed.

Lemma CategoricalCrossEntropy_ok_nat (B I : nat) (buf : list T) :
  Z.of_nat (B * I) ≤ INT_MAX →
  (B * I ≤ length y_pred)%nat → (B * I ≤ length y_true)%nat →
  (0 < length buf)%nat →
  forallb (within (of_int 0) (of_int 1)) (take (B * I) y_pred) = true →
  CategoricalCrossEntropy log y_pred y_true (Z.of_nat B) (Z.of_nat I) buf
  = (Ok tt,
     <[0%nat := CategoricalCrossEntropy_result log (Z.of_nat B) (Z.of_nat I)
                  y_pred y_true]> buf).
Proof.
  intros Hmax Hp Ht Hbuf Hgood.
  assert (INT_MIN ≤ 0) as Hmin by (unfold INT_MIN; lia).
  assert (INT_MIN ≤ Z.of_nat I * Z.of_nat B ≤ INT_MAX) as Hn by lia.
  assert (Z.of_nat I * Z.of_nat B ≤ Z.of_nat (length y_pred)) as Hp'
    by lia.
  unfold CategoricalCrossEntropy.
  rewrite (bind_ok _ _ _ _ _ (int_ok _ _ Hn)).
  rewrite (bind_ok _ _ _ _ _ (checkValue_take _ _ _ _ _ Hp')).
  replace (Z.to_nat (Z.of_nat I * Z.of_nat B)) with (B * I)%nat by lia.
  rewrite Hgood. cbn [negb].
  destruct (Z.ltb_spec (Z.of_nat B) 0) as [? | _]; [lia |].
  rewrite bind_run. cbn [mret M_ret]. rewrite Nat2Z.id.
  pose (K := λ (b : nat) (sum : list T) (buf' : list T),
    buf' = buf ∧
    sum = CategoricalCrossEntropy_rows log (Z.of_nat b) (Z.of_nat I)
            y_pred y_true ++ replicate (B - b) fzero).
  assert (returns
    (fold_lt (Z.of_nat B) (λ b sum,
       b_offset ← int (b * Z.of_nat I);
       fold_lt (Z.of_nat I) (λ i sum,
         idx ← int (b_offset + i);
         t ← read y_true idx;
         if fne t (of_int 0) then
           p ← read y_pred idx;
           add_at sum b (fmul (fneg (log (fmax p eps))) t)
         else mret sum) sum) (replicate B fzero)) buf (K B)) as Hloop.
  { rewrite <- (Nat2Z.id B) at 3. apply (returns_fold_lt K).
    - split; [reflexivity |]. cbn. rewrite Nat.sub_0_r. reflexivity.
    - rewrite Nat2Z.id. intros b sum buf' Hb [-> ->].
      assert (b * I + I ≤ B * I)%nat as Hrow by nia.
      apply returns_bind, returns_int; [nia |].
      eapply returns_mono.
      + apply (cross_entropy_row_loop b I); [| lia | lia | lia].
        unfold CategoricalCrossEntropy_rows.
        rewrite lookup_app_r by (rewrite length_fmap, length_seq; lia).
        rewrite length_fmap, length_seq, Nat2Z.id, Nat.sub_diag.
        apply lookup_replicate_2. lia.
      + intros sum' buf' [-> ->]. split; [reflexivity |].
        apply CategoricalCrossEntropy_rows_step, Hb. }
  destruct Hloop as (sum & buf' & Hrun & -> & ->).
  rewrite (bind_ok _ _ _ _ _ Hrun).
  rewrite Nat.sub_diag, app_nil_r.
  unfold write. change (0 <=? 0) with true.
  replace (0 <? Z.of_nat (length buf)) with true
    by (symmetry; apply Z.ltb_lt; lia).
  reflexivity.
Qed.

End cross_entropy_rows.

(** X4.  With a negative batch size and predictions that pass the
    range check, [CategoricalCrossEntropy] throws [std::length_error]
    at the construction of its vector of row sums and leaves the output
    buffer as it was. *)
Theorem CategoricalCrossEntropy_negative_batch_size (log : T → T)
    (y_pred y_true : list T) batch_size input_size (buf : list T) :
  batch_size < 0 →
  INT_MIN ≤ input_size * batch_size ≤ INT_MAX →
  input_size * batch_size ≤ Z.of_nat (length y_pred) →
  forallb (within (of_int 0) (of_int 1))
    (take (Z.to_nat (input_size * batch_size)) y_pred) = true →
  CategoricalCrossEntropy log y_pred y_true batch_size input_size buf
  = (Throw length_error, buf).
Proof.
  intros Hneg Hn Hp Hgood. unfold CategoricalCrossEntropy.
  rewrite (bind_ok _ _ _ _ _ (int_ok _ _ Hn)).
  rewrite (bind_ok _ _ _ _ _ (checkValue_take _ _ _ _ _ Hp)).
  rewrite Hgood. cbn [negb].
  destruct (Z.ltb_spec batch_size 0) as [_ | ?]; [| lia].
  reflexivity.
Qed.

End further_loss_facts.

Lemma forallb_take_lookup {A} (f : A → bool) (n : nat) (l : list A) :
  (∀ (j : nat) x, (j < n)%nat → l !! j = Some x → f x = true) →
  forallb f (take n l) = true.
Proof.
  intros Hall. apply forallb_forall. intros x Hin.
  apply list_elem_of_In, list_elem_of_lookup_1 in Hin as [j Hj].
  apply lookup_take_Some in Hj as [Hj Hlt]. eauto.
Qed.

(** ** The loss kernels on binary32 *)

Section float_loss_facts.
Import cker spec binary32.

(** Every comparison with a NaN is false, so a NaN is neither above the
    maximum nor below the minimum. *)
Lemma within_nan (min max : float) : within min max S754_nan = true.
Proof. destruct min, max; reflexivity. Qed.

Lemma CategoricalCrossEntropyGrad_value_nan (t : float) :
  CategoricalCrossEntropyGrad_value t S754_nan = S754_nan.
Proof. destruct t; reflexivity. Qed.

(** X6.  On binary32 the range check lets a NaN through: when
    [yPred[k]] is NaN and the other predictions pass the check,
    [CategoricalCrossEntropyGrad] returns and [grad[k]] is NaN,
    whatever the label. *)
Theorem CategoricalCrossEntropyGrad_nan_prediction (y_pred y_true buf : list float)
    batch_size input_size (k : nat) :
  0 ≤ batch_size → 0 ≤ input_size →
  batch_size * input_size ≤ INT_MAX →
  batch_size * input_size ≤ Z.of_nat (length y_pred) →
  batch_size * input_size ≤ Z.of_nat (length y_true) →
  batch_size * input_size ≤ Z.of_nat (length buf) →
  (∀ (j : nat) x, j ≠ k → Z.of_nat j < batch_size * input_size →
     y_pred !! j = Some x → within (of_int 0) (of_int 1) x = true) →
  Z.of_nat k < batch_size * input_size →
  y_pred !! k = Some S754_nan →
  returns (CategoricalCrossEntropyGrad y_pred y_true batch_size input_size)
    buf (λ _ grad, grad !! k = Some S754_nan).
Proof.
  intros Hb Hi Hmax Hp Ht Hbuf Hothers Hk Hnan.
  eapply returns_mono.
  - apply CategoricalCrossEntropyGrad_ok; try assumption.
    apply forallb_take_lookup. intros j x Hj Hx.
    destruct (decide (j = k)) as [Heq | Hne].
    + subst j. pose proof (eq_trans (eq_sym Hx) Hnan) as Hxn.
      injection Hxn as ->. apply within_nan.
    + apply (Hothers j); [exact Hne | lia | exact Hx].
  - intros [] grad (_ & Hdone & _).
    destruct (lookup_lt_is_Some_2 y_true k ltac:(lia)) as [t Hkt].
    pose proof (Hdone k t S754_nan Hk Hkt Hnan) as Hgrad.
    rewrite CategoricalCrossEntropyGrad_value_nan in Hgrad. exact Hgrad.
Qed.

(** X5.  On binary32, [CategoricalCrossEntropy] with a batch size of
    zero checks nothing, reads nothing and writes NaN ([0.f / 0.f]) to
    [output[0]], whatever the input size and the tensors. *)
Theorem CategoricalCrossEntropy_empty_batch_is_nan (log : float → float)
    (y_pred y_true : list float) input_size (buf : list float) :
  (0 < length buf)%nat →
  CategoricalCrossEntropy log y_pred y_true 0 input_size buf
  = (Ok tt, <[0%nat := S754_nan]> buf).
Proof.
  intros Hbuf. unfold CategoricalCrossEntropy.
  rewrite Z.mul_0_r.
  destruct buf as [| x buf]; [cbn in Hbuf; lia | reflexivity].
Qed.

(** X7.  On binary32, [MSE] of tensors whose batch rows hold no
    element (the extents after the batch dimension multiply to zero)
    returns and writes NaN ([0.f / 0]) for every batch row. *)
Theorem MSE_empty_rows_are_nan batch rest (y_pred y_true buf : list float) :
  FlatSize rest = 0 →
  batch ≤ Z.of_nat (length buf) →
  returns (MSE (batch :: rest) y_pred (batch :: rest) y_true [batch]) buf
    (λ _ out,
       length out = length buf ∧
       (∀ b : nat, Z.of_nat b < batch → out !! b = Some S754_nan) ∧
       (∀ b : nat, batch ≤ Z.of_nat b → out !! b = buf !! b)).
Proof.
  intros Hsize Hbuf.
  pose proof (MSE_ok batch rest y_pred y_true buf) as Hok.
  cbv zeta in Hok. rewrite Hsize in Hok.
  eapply returns_mono.
  - apply Hok; unfold INT_MAX; lia.
  - intros [] out (Hlen & Hdone & Hrest).
    split; [exact Hlen | split; [| exact Hrest]].
    intros b Hb. apply (Hdone b Hb).
Qed.

End float_loss_facts.

(** ** The training compiler past its checks *)

Section further_compiler_facts.
Import onert spec.
Context `{Collaborators}.

Lemma frame_refl (w : World) : frame w w.
Proof. split; reflexivity. Qed.

Lemma frame_trans (w1 w2 w3 : World) :
  frame w1 w2 → frame w2 w3 → frame w1 w3.
Proof. intros [] []. split; etrans; eauto. Qed.

Lemma steady_refl (w : World) : steady w w.
Proof. split; [apply frame_refl | reflexivity]. Qed.

Lemma steady_trans (w1 w2 w3 : World) :
  steady w1 w2 → steady w2 w3 → steady w1 w3.
Proof.
  intros [Hf1 Hc1] [Hf2 Hc2].
  split; [eapply frame_trans; eauto | congruence].
Qed.

Lemma steady_observe es (w : World) : steady w (observe es w).
Proof.
  split; [split; try reflexivity | reflexivity].
  exists es. reflexivity.
Qed.

Lemma steady_set_subgraph i g g' (w : World) :
  subgraphs (_model w) !! i = Some g → is_Graph g' = is_Graph g →
  steady w (set_subgraph i g' w).
Proof.
  intros Hi Hkind. split; [split; try reflexivity | reflexivity].
  cbn. rewrite fmap_insert. apply insert_id.
  rewrite lookup_fmap, Hi, Hkind. reflexivity.
Qed.

Lemma keeps_ret {A} (a : A) : keeps (mret a).
Proof. intros w. apply steady_refl. Qed.

Lemma keeps_throw {A} e : keeps (throw e : M World A).
Proof. intros w. apply steady_refl. Qed.

Lemma keeps_abort {A} : keeps (abort : M World A).
Proof. intros w. apply steady_refl. Qed.

Lemma keeps_get : keeps get.
Proof. intros w. apply steady_refl. Qed.

Lemma keeps_lift {A} (o : outcome A) : keeps (lift o).
Proof. intros w. apply steady_refl. Qed.

Lemma keeps_log e : keeps (log e).
Proof. intros w. apply steady_observe. Qed.

Lemma keeps_assert c : keeps (assert c).
Proof. destruct c; [apply keeps_ret | apply keeps_abort]. Qed.

Lemma keeps_bind {A B} (m : M World A) (f : A → M World B) :
  keeps m → (∀ a, keeps (f a)) → keeps (m ≫= f).
Proof.
  intros Hm Hf w. rewrite bind_run. specialize (Hm w).
  destruct (m w) as [[a | e |] w1]; cbn in Hm |- *;
    [| exact Hm | exact Hm].
  eapply steady_trans; [exact Hm | apply Hf].
Qed.

Lemma keeps_fold_each {A B} (l : list A) (body : A → B → M World B) b :
  (∀ x b, keeps (body x b)) → keeps (fold_each l body b).
Proof.
  intros Hbody. revert b. induction l as [| x l IH]; intros b; cbn.
  - apply keeps_ret.
  - apply keeps_bind; [apply Hbody | exact IH].
Qed.

Lemma keeps_for_each {A} (l : list A) (body : A → M World unit) :
  (∀ x, keeps (body x)) → keeps (for_each l body).
Proof. intros Hbody. apply keeps_fold_each. intros x _. apply Hbody. Qed.

Lemma keeps_downcast_Graph g : keeps (downcast_Graph g).
Proof. destruct g; [apply keeps_ret | apply keeps_abort]. Qed.

(** A pass changes the graph it runs on and nothing else. *)
Lemma keeps_run_pass i p : keeps (run_pass i p).
Proof.
  intros w. unfold run_pass. rewrite bind_run.
  change (log (EvPass p i) w) with (Ok tt, observe [EvPass p i] w).
  cbv iota beta. rewrite bind_run.
  set (w1 := observe [EvPass p i] w).
  change (get w1) with (Ok w1, w1). cbv iota beta.
  assert (steady w w1) as Hlog by apply steady_observe.
  destruct (subgraphs (_model w1) !! i) as [[g | tg] |] eqn:Hi;
    [| exact Hlog | exact Hlog].
  destruct (pass_run p g) as [r g'].
  assert (steady w (set_subgraph i (AGraph g') w1)) as Hset.
  { eapply steady_trans; [exact Hlog |].
    apply (steady_set_subgraph i (AGraph g)); [exact Hi | reflexivity]. }
  rewrite bind_run. unfold put, lift. cbv iota beta.
  destruct r; exact Hset.
Qed.

Ltac keeps_step :=
  lazymatch goal with
  | |- keeps (_ ≫= _) => apply keeps_bind
  | |- keeps (mret _) => apply keeps_ret
  | |- keeps (throw _) => apply keeps_throw
  | |- keeps abort => apply keeps_abort
  | |- keeps get => apply keeps_get
  | |- keeps (lift _) => apply keeps_lift
  | |- keeps (log _) => apply keeps_log
  | |- keeps (assert _) => apply keeps_assert
  | |- keeps (fold_each _ _ _) => apply keeps_fold_each
  | |- keeps (for_each _ _) => apply keeps_for_each
  | |- keeps (run_pass _ _) => apply keeps_run_pass
  | |- keeps (downcast_Graph _) => apply keeps_downcast_Graph
  | |- keeps (PassRunner_run _ _) => unfold PassRunner_run
  | |- keeps (convert_subgraph _ _ _) => unfold convert_subgraph
  | |- keeps (convert_operation _ _ _ _) => unfold convert_operation
  | |- keeps (match ?x with _ => _ end) => destruct x
  | |- keeps ((match ?x with _ => _ end) _) => destruct x; cbv beta
  | |- ∀ _, _ => intro
  end.

Lemma mode_check_true o :
  mode_check o = true →
  (he_profiling_mode o = false ∨
   (he_scheduler o = true ∧ executor o = "Dataflow")) ∧
  (minmax_filepath o = "" ∨ executor o = "Linear").
Proof.
  unfold mode_check. intros Hmode.
  apply andb_true_iff in Hmode as [Hprof Hminmax].
  apply orb_true_iff in Hprof as [Hprof | Hprof];
    apply orb_true_iff in Hminmax as [Hminmax | Hminmax];
    try apply negb_true_iff in Hprof;
    try (apply andb_true_iff in Hprof as [Hsched Hdf];
         apply bool_decide_eq_true in Hdf);
    apply bool_decide_eq_true in Hminmax; auto.
Qed.

Lemma mode_check_false o :
  mode_check o = false →
  (he_profiling_mode o = true ∧
   (he_scheduler o = false ∨ executor o ≠ "Dataflow")) ∨
  (minmax_filepath o ≠ "" ∧ executor o ≠ "Linear").
Proof.
  unfold mode_check. intros Hmode.
  apply andb_false_iff in Hmode as [Hprof | Hminmax].
  - apply orb_false_iff in Hprof as [Hprof Hrest].
    apply negb_false_iff in Hprof. left. split; [exact Hprof |].
    apply andb_false_iff in Hrest as [Hsched | Hdf]; [left; exact Hsched |].
    right. apply bool_decide_eq_false in Hdf. exact Hdf.
  - apply orb_false_iff in Hminmax as [Hpath Hlin].
    apply bool_decide_eq_false in Hpath, Hlin. right. auto.
Qed.

(** Past the mode check [compile] forces the options, and from then on
    keeps the world steady. *)
Lemma compile_after_check this (w : World) o :
  _options w = Some o → mode_check o = true →
  ∃ rest : M World CompilerArtifact,
    keeps rest ∧
    compile this w
    = rest (set_options (forceInternalOptions o)
              (observe [EvForceInternalOptions] w)).
Proof.
  intros Ho Hmode. apply mode_check_true in Hmode as [Hprof Hminmax].
  eexists. split; cycle 1.
  - unfold compile.
    rewrite bind_run. change (get w) with (Ok w, w). cbv iota beta.
    rewrite Ho, bind_run.
    assert ((if he_profiling_mode o
             then if negb (he_scheduler o)
                  then throw (runtime_error
                    "Heterogeneous scheduler must be enabled during profiling.")
                  else if bool_decide (executor o ≠ "Dataflow")
                       then throw (runtime_error
                         "Profiling mode works only with 'Dataflow' executor")
                       else mret ()
             else mret ()) w = (Ok tt, w)) as ->.
    { destruct Hprof as [-> | [-> Hdf]]; [reflexivity |].
      cbn [negb]. rewrite bool_decide_eq_false_2 by (intros Hne; auto).
      destruct (he_profiling_mode o); reflexivity. }
    rewrite bind_run.
    assert ((if negb (bool_decide (minmax_filepath o = ""))
             then if bool_decide (executor o ≠ "Linear")
                  then throw (runtime_error
                    "Recording minmax works only with Linear executor")
                  else mret ()
             else mret ()) w = (Ok tt, w)) as ->.
    { destruct Hminmax as [Hpath | Hlin].
      - rewrite (bool_decide_eq_true_2 _ Hpath). reflexivity.
      - rewrite (bool_decide_eq_false_2 (executor o ≠ "Linear"))
          by (intros Hne; auto).
        destruct (negb (bool_decide (minmax_filepath o = "")));
          reflexivity. }
    rewrite bind_run.
    change (log EvForceInternalOptions w)
      with (Ok tt, observe [EvForceInternalOptions] w).
    cbv iota beta. rewrite bind_run. unfold modify at 1. cbv iota beta.
    match goal with
    | |- ?body _ = _ => instantiate (1 := body)
    end.
    reflexivity.
  - cbv beta. repeat keeps_step.
Qed.

Lemma compile_mode_check_fails this (w : World) o :
  _options w = Some o → mode_check o = false →
  ∃ e, e ∈ configuration_errors ∧ compile this w = (Throw e, w).
Proof.
  intros Ho Hmode. unfold configuration_errors.
  destruct (he_profiling_mode o) eqn:Hprof.
  - destruct (he_scheduler o) eqn:Hsched.
    + destruct (decide (executor o = "Dataflow")) as [Hdf | Hdf].
      * apply mode_check_false in Hmode
          as [[_ [Hoff | Hne]] | [Hpath Hlin]];
          [congruence | contradiction |].
        eexists. split;
          [| apply (compile_minmax_without_linear _ _ o); auto].
        in_list.
      * eexists. split;
          [| apply (compile_profiling_without_dataflow _ _ o); auto].
        in_list.
    + eexists. split;
        [| apply (compile_profiling_without_scheduler _ _ o); auto].
      in_list.
  - apply mode_check_false in Hmode as [[Hon _] | [Hpath Hlin]];
      [congruence |].
    eexists. split;
      [| apply (compile_minmax_without_linear _ _ o); auto].
    in_list.
Qed.

Lemma frame_forced o (w : World) :
  frame w (set_options o (observe [EvForceInternalOptions] w)).
Proof. split; try reflexivity. exists [EvForceInternalOptions]. reflexivity. Qed.

Lemma compile_forces_options this (w : World) o :
  _options w = Some o → mode_check o = true →
  _options (compile this w).2 = Some (forceInternalOptions o) ∧
  ∃ es, trace (compile this w).2
        = trace w ++ EvForceInternalOptions :: es.
Proof.
  intros Ho Hmode.
  destruct (compile_after_check this w o Ho Hmode) as (rest & Hrest & ->).
  destruct (Hrest (set_options (forceInternalOptions o)
                     (observe [EvForceInternalOptions] w)))
    as [[_ _ _ [es Htrace]] Hcopts].
  split.
  - unfold _options in Ho |- *. rewrite Hcopts. cbn [copts set_options observe].
    destruct (copts w) as [| o0 l]; [discriminate Ho | reflexivity].
  - exists es. rewrite Htrace. cbn [trace set_options observe].
    rewrite <- app_assoc. reflexivity.
Qed.

(** Whatever the outcome, [compile] stays within the frame and touches
    no option object other than the first. *)
Lemma compile_frame this (w : World) :
  frame w (compile this w).2 ∧
  ∀ i : nat, i ≠ 0%nat → copts (compile this w).2 !! i = copts w !! i.
Proof.
  destruct (_options w) as [o |] eqn:Ho.
  - destruct (mode_check o) eqn:Hmode.
    + destruct (compile_after_check this w o Ho Hmode)
        as (rest & Hrest & ->).
      destruct (Hrest (set_options (forceInternalOptions o)
                         (observe [EvForceInternalOptions] w)))
        as [Hframe Hcopts].
      split; [eapply frame_trans; [apply frame_forced | exact Hframe] |].
      intros i Hi. rewrite Hcopts. cbn [copts set_options observe].
      apply list_lookup_insert_ne. auto.
    + destruct (compile_mode_check_fails this w o Ho Hmode)
        as (e & _ & ->).
      split; [apply frame_refl | reflexivity].
  - unfold compile. rewrite bind_run. change (get w) with (Ok w, w).
    cbv iota beta. rewrite Ho.
    split; [apply frame_refl | reflexivity].
Qed.

Lemma entries_empty {V} : entries (∅ : gmap nat V) = [].
Proof. unfold entries. rewrite map_to_list_empty. reflexivity. Qed.

(** A model without subgraphs: no pass, no conversion and no lowering
    runs, and shape inference finds no inferer for subgraph 0. *)
Lemma compile_no_subgraph this (w : World) o :
  _options w = Some o → mode_check o = true →
  subgraphs (_model w) = ∅ →
  compile this w
  = (Throw out_of_range,
     set_options (forceInternalOptions o)
       (observe [EvForceInternalOptions] w)).
Proof.
  intros Ho Hmode Hempty.
  apply mode_check_true in Hmode as [Hprof Hminmax].
  unfold compile.
  rewrite bind_run. change (get w) with (Ok w, w). cbv iota beta.
  rewrite Ho, bind_run.
  assert ((if he_profiling_mode o
           then if negb (he_scheduler o)
                then throw (runtime_error
                  "Heterogeneous scheduler must be enabled during profiling.")
                else if bool_decide (executor o ≠ "Dataflow")
                     then throw (runtime_error
                       "Profiling mode works only with 'Dataflow' executor")
                     else mret ()
           else mret ()) w = (Ok tt, w)) as ->.
  { destruct Hprof as [-> | [-> Hdf]]; [reflexivity |].
    cbn [negb]. rewrite bool_decide_eq_false_2 by (intros Hne; auto).
    destruct (he_profiling_mode o); reflexivity. }
  rewrite bind_run.
  assert ((if negb (bool_decide (minmax_filepath o = ""))
           then if bool_decide (executor o ≠ "Linear")
                then throw (runtime_error
                  "Recording minmax works only with Linear executor")
                else mret ()
           else mret ()) w = (Ok tt, w)) as ->.
  { destruct Hminmax as [Hpath | Hlin].
    - rewrite (bool_decide_eq_true_2 _ Hpath). reflexivity.
    - rewrite (bool_decide_eq_false_2 (executor o ≠ "Linear"))
        by (intros Hne; auto).
      destruct (negb (bool_decide (minmax_filepath o = "")));
        reflexivity. }
  rewrite bind_run.
  change (log EvForceInternalOptions w)
    with (Ok tt, observe [EvForceInternalOptions] w).
  cbv iota beta. rewrite bind_run. unfold modify at 1. cbv iota beta.
  set (w1 := set_options (forceInternalOptions o)
               (observe [EvForceInternalOptions] w)).
  assert (subgraphs (_model w1) = ∅) as Hempty1 by exact Hempty.
  rewrite Hempty, entries_empty. cbv zeta.
  rewrite bind_run. change (for_each [] _ w1) with (Ok tt, w1).
  cbv iota beta. rewrite bind_run. change (get w1) with (Ok w1, w1).
  cbv iota beta. unfold hasOnly_Graph.
  rewrite Hempty1, entries_empty, map_to_list_empty.
  reflexivity.
Qed.

(** The constructor reads the package and changes nothing. *)
Lemma TrainingCompiler_new_world training_info (w : World) :
  (TrainingCompiler_new training_info w).2 = w.
Proof.
  unfold TrainingCompiler_new. rewrite bind_run.
  change (get w) with (Ok w, w). cbv iota beta.
  destruct (copts w); [reflexivity |].
  repeat case_bool_decide; reflexivity.
Qed.

Lemma TrainingCompiler_new_accepts training_info (w : World) :
  copts w ≠ [] →
  other_models (nnpkg w) = [] →
  (subgraphs_count (primary_model (nnpkg w)) ≤ 1)%nat →
  TrainingCompiler_new training_info w
  = (Ok {| _training_info := training_info |}, w).
Proof.
  intros Hcopts Hone Hsub. unfold TrainingCompiler_new. rewrite bind_run.
  change (get w) with (Ok w, w). cbv iota beta.
  destruct (copts w); [congruence |].
  unfold model_count. rewrite Hone.
  rewrite bool_decide_eq_false_2 by (cbn; lia).
  rewrite bool_decide_eq_false_2 by lia. reflexivity.
Qed.

Ltac compile_past_check Ho Hprof Hminmax :=
  unfold compile;
  rewrite bind_run;
  match goal with
  | |- context [get ?w] => change (get w) with (Ok w, w)
  end;
  cbv iota beta; rewrite Ho, bind_run;
  match goal with
  | |- context [match ?check ?w with _ => _ end] =>
      assert (check w = (Ok tt, w)) as ->;
        [destruct Hprof as [-> | [-> Hdf]]; [reflexivity |];
         cbn [negb]; rewrite bool_decide_eq_false_2 by (intros Hne; auto);
         match goal with
         | |- context [if ?b then _ else _] => destruct b; reflexivity
         end |]
  end;
  rewrite bind_run;
  match goal with
  | |- context [match ?check ?w with _ => _ end] =>
      assert (check w = (Ok tt, w)) as ->;
        [destruct Hminmax as [Hpath | Hlin];
         [rewrite (bool_decide_eq_true_2 _ Hpath); reflexivity |
          match goal with
          | |- context [bool_decide (?P ≠ ?Q)] =>
              rewrite (bool_decide_eq_false_2 (P ≠ Q))
                by (intros Hne; auto)
          end;
          match goal with
          | |- context [if ?b then _ else _] => destruct b; reflexivity
          end] |]
  end;
  rewrite bind_run;
  match goal with
  | |- context [log EvForceInternalOptions ?w] =>
      change (log EvForceInternalOptions w)
        with (Ok tt, observe [EvForceInternalOptions] w)
  end;
  cbv iota beta; rewrite bind_run; unfold modify at 1; cbv iota beta.

Lemma set_subgraph_id i g (w : World) :
  subgraphs (_model w) !! i = Some g → set_subgraph i g w = w.
Proof.
  intros Hi. destruct w as [[[sg kb] om] co tr].
  unfold set_subgraph. cbn in Hi |- *.
  rewrite insert_id by exact Hi. reflexivity.
Qed.

Lemma set_subgraph_again i g1 g2 es1 es2 (w : World) :
  set_subgraph i g2 (observe es2 (set_subgraph i g1 (observe es1 w)))
  = set_subgraph i g2 (observe (es1 ++ es2) w).
Proof.
  unfold set_subgraph, observe. cbn.
  rewrite insert_insert_eq, app_assoc. reflexivity.
Qed.

(** A [PassRunner] on the subgraph [i]: each pass works on the graph as
    the one before it left it, and the first that fails ends the run
    with the graph as it left it. *)
Lemma PassRunner_run_graph i passes g (w : World) :
  subgraphs (_model w) !! i = Some (AGraph g) →
  PassRunner_run i passes w
  = (let '(r, g', ran) := run_passes passes g in
     (r, set_subgraph i (AGraph g') (observe (pass_events i ran) w))).
Proof.
  revert g w. induction passes as [| p passes IH]; intros g w Hi.
  - cbn. rewrite observe_nil, set_subgraph_id by exact Hi. reflexivity.
  - unfold PassRunner_run, for_each. cbn [fold_each]. rewrite bind_run.
    unfold run_pass at 1. rewrite bind_run.
    change (log (EvPass p i) w) with (Ok tt, observe [EvPass p i] w).
    cbv iota beta. rewrite bind_run.
    set (w1 := observe [EvPass p i] w).
    change (get w1) with (Ok w1, w1). cbv iota beta.
    assert (subgraphs (_model w1) !! i = Some (AGraph g)) as ->
      by exact Hi.
    cbn [run_passes]. destruct (pass_run p g) as [r g1].
    rewrite bind_run. unfold put at 1. cbv iota beta. unfold lift at 1.
    destruct r as [[] | e |]; [| reflexivity | reflexivity].
    change (fold_each passes (λ x _, run_pass i x) tt)
      with (PassRunner_run i passes).
    rewrite (IH g1) by (cbn; apply lookup_insert_eq).
    destruct (run_passes passes g1) as [[r g2] ran].
    unfold w1. rewrite set_subgraph_again. reflexivity.
Qed.

Lemma PassRunner_run_app i passes1 passes2 (w : World) :
  (PassRunner_run i passes1;; PassRunner_run i passes2) w
  = PassRunner_run i (passes1 ++ passes2) w.
Proof.
  revert w. induction passes1 as [| p passes1 IH]; intros w.
  - reflexivity.
  - unfold PassRunner_run, for_each in IH |- *.
    cbn [fold_each app]. rewrite !bind_run.
    destruct (run_pass i p w) as [[[] | e |] w1];
      [| reflexivity | reflexivity].
    rewrite <- IH, bind_run. reflexivity.
Qed.

Lemma for_each_one {St A} (x : A) (body : A → M St unit) (s : St) :
  for_each [x] body s = body x s.
Proof.
  unfold for_each. cbn [fold_each]. rewrite bind_run.
  destruct (body x s) as [[[] | e |] s']; reflexivity.
Qed.

Lemma entries_singleton {V} (i : nat) (v : V) :
  entries ({[ i := v ]} : gmap nat V) = [(i, v)].
Proof. unfold entries. rewrite map_to_list_singleton. reflexivity. Qed.

(** X14.  On a model with one subgraph, [compile] runs
    [ConstantOutputPass], [OddOutputPass] and
    [UnusedOperandEliminationPass] in this order, each on the graph as
    the one before left it.  When one of them throws, [compile] throws
    the same exception: the options stay forced, the subgraph stays as
    the failing pass left it, and neither a later pass nor the
    conversion runs. *)
Theorem compile_pass_throws this (w : World) o i g e g' ran :
  _options w = Some o → mode_check o = true →
  subgraphs (_model w) = {[ i := AGraph g ]} →
  run_passes
    [ConstantOutputPass; OddOutputPass; UnusedOperandEliminationPass] g
  = (Throw e, g', ran) →
  compile this w
  = (Throw e,
     set_subgraph i (AGraph g')
       (observe (pass_events i ran)
          (set_options (forceInternalOptions o)
             (observe [EvForceInternalOptions] w)))).
Proof.
  intros Ho Hmode Hsub Hpasses.
  apply mode_check_true in Hmode as [Hprof Hminmax].
  compile_past_check Ho Hprof Hminmax.
  set (w1 := set_options (forceInternalOptions o)
               (observe [EvForceInternalOptions] w)).
  assert (subgraphs (_model w1) !! i = Some (AGraph g)) as Hi.
  { change (subgraphs (_model w1)) with (subgraphs (_model w)).
    rewrite Hsub. apply lookup_singleton_eq. }
  rewrite Hsub, entries_singleton. cbv zeta.
  rewrite bind_run, for_each_one. cbv iota beta. rewrite bind_run.
  change (downcast_Graph (AGraph g) w1) with (Ok g, w1). cbv iota beta.
  rewrite PassRunner_run_app.
  change ([ConstantOutputPass; OddOutputPass]
          ++ [UnusedOperandEliminationPass])
    with [ConstantOutputPass; OddOutputPass; UnusedOperandEliminationPass].
  rewrite (PassRunner_run_graph i _ g w1 Hi), Hpasses. reflexivity.
Qed.

Lemma bind_ok_inv {St A B} (m : M St A) (f : A → M St B) s b s'' :
  (m ≫= f) s = (Ok b, s'') →
  ∃ a s', m s = (Ok a, s') ∧ f a s' = (Ok b, s'').
Proof.
  rewrite bind_run. destruct (m s) as [[a | e |] s']; intros Hrun;
    [| discriminate Hrun | discriminate Hrun].
  exists a, s'. auto.
Qed.

(** The invariant rule of a range-[for] that returns. *)
Lemma fold_each_invariant {St A B} (I : list A → B → Prop) (l : list A)
    (body : A → B → M St B) :
  (∀ done x b s b1 s1,
     I done b → body x b s = (Ok b1, s1) → I (done ++ [x]) b1) →
  ∀ done b s b' s',
    I done b → fold_each l body b s = (Ok b', s') → I (done ++ l) b'.
Proof.
  intros Hstep. induction l as [| x l IH]; intros done b s b' s' HI Hrun.
  - cbn in Hrun. injection Hrun as <- <-. rewrite app_nil_r. exact HI.
  - cbn [fold_each] in Hrun.
    apply bind_ok_inv in Hrun as (b1 & s1 & Hx & Hrun).
    replace (done ++ x :: l) with ((done ++ [x]) ++ l)
      by (rewrite <- app_assoc; reflexivity).
    eapply IH; [| exact Hrun]. eapply Hstep; eauto.
Qed.

Lemma list_to_set_entries {V} (m : gmap nat V) :
  (list_to_set (entries m).*1 : gset nat) = dom m.
Proof.
  apply set_eq. intros k.
  rewrite elem_of_list_to_set, elem_of_dom, list_elem_of_fmap. split.
  - intros ([k' v] & -> & Hin). apply elem_of_entries in Hin. eauto.
  - intros [v Hv]. exists (k, v).
    split; [reflexivity | apply elem_of_entries, Hv].
Qed.

Lemma list_to_set_snoc (l : list nat) (k : nat) :
  (list_to_set (l ++ [k]) : gset nat) = {[ k ]} ∪ list_to_set l.
Proof.
  rewrite list_to_set_app_L. cbn.
  rewrite union_empty_r_L. apply union_comm_L.
Qed.

(** X13.  When [compile] returns, the options were present and passed
    the mode check, every subgraph of the model was an inference graph
    and subgraph 0 was among them; the tracing context of the artifact
    has one entry for each subgraph index of the model, which maps the
    index to itself, and every executor of the artifact is filed under
    model index 0. *)
Theorem compile_success_indices this (w : World) artifact w' :
  compile this w = (Ok artifact, w') →
  (∃ o, _options w = Some o ∧ mode_check o = true) ∧
  hasOnly_Graph (_model w) = true ∧
  is_Some (subgraphs (_model w) !! 0%nat) ∧
  dom (_tracing_ctx artifact) = dom (subgraphs (_model w)) ∧
  (∀ i j : nat, _tracing_ctx artifact !! i = Some j → j = i) ∧
  (∀ k, k ∈ dom (_executors artifact) → k.1 = 0%nat).
Proof.
  intros Hrun.
  destruct (_options w) as [o |] eqn:Ho; cycle 1.
  { unfold compile in Hrun. rewrite bind_run in Hrun.
    change (get w) with (Ok w, w) in Hrun. cbv iota beta in Hrun.
    rewrite Ho in Hrun. discriminate Hrun. }
  destruct (mode_check o) eqn:Hmode; cycle 1.
  { destruct (compile_mode_check_fails this w o Ho Hmode)
      as (e & _ & Hthrow).
    rewrite Hthrow in Hrun. discriminate Hrun. }
  split; [eauto |].
  apply mode_check_true in Hmode as [Hprof Hminmax].
  revert Hrun. compile_past_check Ho Hprof Hminmax.
  set (w1 := set_options (forceInternalOptions o)
               (observe [EvForceInternalOptions] w)).
  intros Hrun.
  (* the passes *)
  apply bind_ok_inv in Hrun as ([] & w2 & Hpass & Hrun).
  assert (Forall (λ kv : nat * IGraph, is_Graph kv.2 = true)
            (entries (subgraphs (_model w)))) as Hkinds.
  { unfold for_each in Hpass.
    refine (fold_each_invariant
              (λ done _, Forall (λ kv : nat * IGraph, is_Graph kv.2 = true)
                           done)
              _ _ _ [] tt w1 tt w2 (Forall_nil_2 _) Hpass).
    intros done [i graph] b s b1 s1 HI Hbody.
    apply Forall_app. split; [exact HI |].
    constructor; [| constructor]. cbn.
    destruct graph; [reflexivity |].
    rewrite bind_run in Hbody. discriminate Hbody. }
  assert (dom (subgraphs (_model w2)) = dom (subgraphs (_model w)))
    as Hdom2.
  { match type of Hpass with
    | ?m w1 = _ => assert (keeps m) as Hkeeps by (repeat keeps_step)
    end.
    specialize (Hkeeps w1). rewrite Hpass in Hkeeps.
    destruct Hkeeps as [[_ _ Hk _] _].
    apply (f_equal dom) in Hk. rewrite !dom_fmap_L in Hk. exact Hk. }
  apply bind_ok_inv in Hrun as (w2' & w2'' & Hget & Hrun).
  injection Hget as <- <-.
  (* the conversion *)
  apply bind_ok_inv in Hrun as (ts & w3 & Hconv & Hrun).
  destruct (hasOnly_Graph (_model w2)); [| discriminate Hconv].
  assert (dom ts = dom (subgraphs (_model w2))) as Hdomts.
  { rewrite <- (list_to_set_entries (subgraphs (_model w2))).
    refine (fold_each_invariant
              (λ done (ts : gmap nat TrainableGraph),
                 dom ts = (list_to_set done.*1 : gset nat))
              _ _ _ [] ∅ w2 ts w3 _ Hconv).
    - intros done [si graph] ts0 s ts1 s1 HI Hbody.
      apply bind_ok_inv in Hbody as (subg & s' & _ & Hbody).
      apply bind_ok_inv in Hbody as (tsub & s'' & _ & Hbody).
      injection Hbody as <- _.
      rewrite dom_insert_L, HI, fmap_app. apply eq_sym, list_to_set_snoc.
    - cbn. apply dom_empty_L. }
  (* lowering *)
  apply bind_ok_inv in Hrun as ([lowered tctx] & w4 & Hlower & Hrun).
  assert (dom lowered = dom ts ∧ dom tctx = dom ts ∧
          ∀ i j : nat, tctx !! i = Some j → j = i)
    as (Hdoml & Hdomt & Hid).
  { rewrite <- (list_to_set_entries ts).
    refine (fold_each_invariant
              (λ done (acc : gmap nat LoweredTrainableGraph * gmap nat nat),
                 dom acc.1 = (list_to_set done.*1 : gset nat) ∧
                 dom acc.2 = (list_to_set done.*1 : gset nat) ∧
                 ∀ i j : nat, acc.2 !! i = Some j → j = i)
              _ _ _ [] (∅, ∅) w3 (lowered, tctx) w4 _ Hlower).
    - intros done [si tsub] [l t] s [l1 t1] s1 (Hl & Ht & Hident) Hbody.
      apply bind_ok_inv in Hbody as ([] & s' & _ & Hbody).
      apply bind_ok_inv in Hbody as (low & s'' & _ & Hbody).
      injection Hbody as <- <- _. cbn [fst snd] in *.
      rewrite !dom_insert_L, Hl, Ht, fmap_app.
      split; [apply eq_sym, list_to_set_snoc | split];
        [apply eq_sym, list_to_set_snoc |].
      intros i j Hij. apply lookup_insert_Some in Hij as [[-> ->] | [_ Hij]];
        [reflexivity | apply Hident, Hij].
    - cbn. rewrite !dom_empty_L. split; [reflexivity | split];
        [reflexivity | intros i j Hij; rewrite lookup_empty in Hij;
                       discriminate Hij]. }
  cbv beta iota in Hrun.
  (* shape inference *)
  apply bind_ok_inv in Hrun as (lowered' & w5 & Hinfer & Hrun).
  destruct (bool_decide (is_Some (lowered !! 0%nat))) eqn:Hzero;
    [| discriminate Hinfer].
  apply bool_decide_eq_true in Hzero.
  apply bind_ok_inv in Hrun as ([] & w6 & _ & Hrun).
  (* the executors *)
  apply bind_ok_inv in Hrun as (ex & w7 & Hexec & Hrun).
  injection Hrun as <- <-. cbn [_executors _tracing_ctx].
  split.
  { unfold hasOnly_Graph. apply forallb_forall. intros [k v] Hin.
    apply list_elem_of_In, elem_of_map_to_list, elem_of_entries in Hin.
    rewrite Forall_forall in Hkinds. apply (Hkinds (k, v) Hin). }
  split.
  { apply elem_of_dom. rewrite <- Hdom2, <- Hdomts, <- Hdoml.
    apply elem_of_dom. exact Hzero. }
  split; [congruence |]. split; [exact Hid |].
  refine (fold_each_invariant
            (λ done (ex : gmap (nat * nat) IExecutor),
               ∀ k, k ∈ dom ex → k.1 = 0%nat)
            _ _ _ [] ∅ w6 ex w7 _ Hexec).
  - intros done [si lsub] ex0 s ex1 s1 HI Hbody.
    apply bind_ok_inv in Hbody as ([] & s' & _ & Hbody).
    apply bind_ok_inv in Hbody as (executor0 & s'' & _ & Hbody).
    injection Hbody as <- _.
    intros k Hk. rewrite dom_insert_L in Hk.
    apply elem_of_union in Hk as [Hk | Hk]; [| apply HI, Hk].
    apply elem_of_singleton in Hk. subst k. reflexivity.
  - intros k Hk. rewrite dom_empty_L in Hk.
    apply elem_of_empty in Hk. destruct Hk.
Qed.

Lemma fold_each_one {St A B} (x : A) (body : A → B → M St B) b (s : St) :
  fold_each [x] body b s = body x b s.
Proof.
  cbn [fold_each]. rewrite bind_run.
  destruct (body x b s) as [[b' | e |] s']; reflexivity.
Qed.

(** X15.  On a model whose one subgraph has index 0, when every
    collaborator succeeds, [compile] chains them: the three passes on
    the graph, the conversion of the graph as the passes left it, the
    lowering of the converted graph with the forced options, shape
    inference, validation of the inferred graph, and the executor
    factory on the inferred graph with the forced options, the kernel
    builder of the model and model index 0.  The artifact holds that
    executor under (0, 0) and the tracing context maps 0 to 0. *)
Theorem compile_single_subgraph_pipeline this (w : World) o g g' ran tg w3 l l' ex :
  _options w = Some o → mode_check o = true →
  subgraphs (_model w) = {[ 0%nat := AGraph g ]} →
  run_passes
    [ConstantOutputPass; OddOutputPass; UnusedOperandEliminationPass] g
  = (Ok tt, g', ran) →
  convert_subgraph this 0%nat g'
    (set_subgraph 0%nat (AGraph g')
       (observe (pass_events 0%nat ran)
          (set_options (forceInternalOptions o)
             (observe [EvForceInternalOptions] w))))
  = (Ok tg, w3) →
  lower tg (forceInternalOptions o) = Ok l →
  infer {[ 0%nat := l ]} = Ok {[ 0%nat := l' ]} →
  validate l' = Ok tt →
  create_executor l' (forceInternalOptions o)
    (getKernelBuilder (_model w)) 0%nat = Ok ex →
  compile this w
  = (Ok {| _executors := {[ (0%nat, 0%nat) := ex ]};
           _tracing_ctx := {[ 0%nat := 0%nat ]} |},
     observe [EvLower 0%nat; EvInfer; EvValidate 0%nat; EvExecutor 0%nat]
       w3).
Proof.
  intros Ho Hmode Hsub Hpasses Hconv Hlower Hinfer Hvalid Hexec.
  apply mode_check_true in Hmode as [Hprof Hminmax].
  compile_past_check Ho Hprof Hminmax.
  set (w1 := set_options (forceInternalOptions o)
               (observe [EvForceInternalOptions] w)) in *.
  set (w2 := set_subgraph 0%nat (AGraph g')
               (observe (pass_events 0%nat ran) w1)) in *.
  assert (subgraphs (_model w1) !! 0%nat = Some (AGraph g)) as Hi.
  { change (subgraphs (_model w1)) with (subgraphs (_model w)).
    rewrite Hsub. apply lookup_singleton_eq. }
  assert (subgraphs (_model w2) = {[ 0%nat := AGraph g' ]}) as Hsub2.
  { change (subgraphs (_model w2))
      with (<[0%nat := AGraph g']> (subgraphs (_model w))).
    rewrite Hsub. apply insert_insert_eq. }
  (* the passes *)
  rewrite Hsub, entries_singleton. cbv zeta.
  rewrite bind_run, for_each_one. cbv iota beta. rewrite bind_run.
  change (downcast_Graph (AGraph g) w1) with (Ok g, w1). cbv iota beta.
  rewrite PassRunner_run_app.
  change ([ConstantOutputPass; OddOutputPass]
          ++ [UnusedOperandEliminationPass])
    with [ConstantOutputPass; OddOutputPass; UnusedOperandEliminationPass].
  rewrite (PassRunner_run_graph 0%nat _ g w1 Hi), Hpasses.
  fold w2. cbv iota beta.
  (* the conversion *)
  rewrite bind_run. change (get w2) with (Ok w2, w2). cbv iota beta.
  unfold hasOnly_Graph.
  rewrite Hsub2, map_to_list_singleton, entries_singleton.
  cbn [forallb is_Graph snd andb].
  rewrite bind_run, fold_each_one. cbv iota beta. rewrite bind_run.
  change (downcast_Graph (AGraph g') w2) with (Ok g', w2). cbv iota beta.
  rewrite bind_run, Hconv. cbn [mret M_ret]. cbv iota beta.
  (* lowering *)
  change (<[0%nat := tg]> ∅) with ({[ 0%nat := tg ]} : gmap nat _).
  rewrite entries_singleton.
  rewrite bind_run, fold_each_one. cbv iota beta.
  rewrite bind_run.
  change (log (EvLower 0%nat) w3) with (Ok tt, observe [EvLower 0%nat] w3).
  cbv iota beta. rewrite bind_run. unfold lift at 1. rewrite Hlower.
  cbn [mret M_ret]. cbv iota beta.
  (* shape inference *)
  change (<[0%nat := l]> ∅) with ({[ 0%nat := l ]} : gmap nat _).
  rewrite bool_decide_eq_true_2
    by (rewrite lookup_singleton_eq; eexists; reflexivity).
  rewrite bind_run, bind_run.
  change (log EvInfer (observe [EvLower 0%nat] w3))
    with (Ok tt, observe [EvInfer] (observe [EvLower 0%nat] w3)).
  cbv iota beta. unfold lift at 1. rewrite Hinfer. cbv iota beta.
  (* validation and the executor *)
  rewrite entries_singleton.
  rewrite bind_run, for_each_one. cbv iota beta. rewrite bind_run.
  unfold log at 1, modify at 1. cbv iota beta.
  unfold lift at 1. rewrite Hvalid. cbv iota beta.
  rewrite bind_run, fold_each_one. cbv iota beta zeta. rewrite bind_run.
  unfold log at 1, modify at 1. cbv iota beta.
  rewrite bind_run. unfold lift at 1. rewrite Hexec.
  cbn [mret M_ret]. cbv iota beta.
  rewrite !observe_app. reflexivity.
Qed.

(** X16.  On a model with one subgraph, when the passes succeed and
    the conversion of the graph they left throws, [compile] throws the
    same exception and stops there: nothing is lowered and no executor
    is built, while the forced options and the graph of the passes
    stay. *)
Theorem compile_conversion_throws this (w : World) o g g' ran e w3 :
  _options w = Some o → mode_check o = true →
  subgraphs (_model w) = {[ 0%nat := AGraph g ]} →
  run_passes
    [ConstantOutputPass; OddOutputPass; UnusedOperandEliminationPass] g
  = (Ok tt, g', ran) →
  convert_subgraph this 0%nat g'
    (set_subgraph 0%nat (AGraph g')
       (observe (pass_events 0%nat ran)
          (set_options (forceInternalOptions o)
             (observe [EvForceInternalOptions] w))))
  = (Throw e, w3) →
  compile this w = (Throw e, w3).
Proof.
  intros Ho Hmode Hsub Hpasses Hconv.
  apply mode_check_true in Hmode as [Hprof Hminmax].
  compile_past_check Ho Hprof Hminmax.
  set (w1 := set_options (forceInternalOptions o)
               (observe [EvForceInternalOptions] w)) in *.
  set (w2 := set_subgraph 0%nat (AGraph g')
               (observe (pass_events 0%nat ran) w1)) in *.
  assert (subgraphs (_model w1) !! 0%nat = Some (AGraph g)) as Hi.
  { change (subgraphs (_model w1)) with (subgraphs (_model w)).
    rewrite Hsub. apply lookup_singleton_eq. }
  assert (subgraphs (_model w2) = {[ 0%nat := AGraph g' ]}) as Hsub2.
  { change (subgraphs (_model w2))
      with (<[0%nat := AGraph g']> (subgraphs (_model w))).
    rewrite Hsub. apply insert_insert_eq. }
  rewrite Hsub, entries_singleton. cbv zeta.
  rewrite bind_run, for_each_one. cbv iota beta. rewrite bind_run.
  change (downcast_Graph (AGraph g) w1) with (Ok g, w1). cbv iota beta.
  rewrite PassRunner_run_app.
  change ([ConstantOutputPass; OddOutputPass]
          ++ [UnusedOperandEliminationPass])
    with [ConstantOutputPass; OddOutputPass; UnusedOperandEliminationPass].
  rewrite (PassRunner_run_graph 0%nat _ g w1 Hi), Hpasses.
  fold w2. cbv iota beta.
  rewrite bind_run. change (get w2) with (Ok w2, w2). cbv iota beta.
  unfold hasOnly_Graph.
  rewrite Hsub2, map_to_list_singleton, entries_singleton.
  cbn [forallb is_Graph snd andb].
  rewrite bind_run, fold_each_one. cbv iota beta. rewrite bind_run.
  change (downcast_Graph (AGraph g') w2) with (Ok g', w2). cbv iota beta.
  rewrite bind_run, Hconv. reflexivity.
Qed.

End further_compiler_facts.

(** * The cross-entropy claims, on binary32

    The cross-entropy kernels pass a [T] and a [float] to [std::max],
    so [float] is the only element type they are compiled for. *)

Section unit_interval_facts.
Import cker spec binary32.

Lemma SFcompare_antisym (a b : float) :
  SFcompare b a = option_map CompOpp (SFcompare a b).
Proof.
  destruct a as [sa | sa | | sa ma ea], b as [sb | sb | | sb mb eb];
    cbn; try reflexivity;
    try (destruct sa; reflexivity); try (destruct sb; reflexivity);
    try (destruct sa, sb; reflexivity).
  pose proof (Pos.compare_cont_antisym ma mb Eq) as Hm. cbn in Hm.
  destruct sa, sb; try reflexivity;
    rewrite (Z.compare_antisym ea eb);
    destruct (ea ?= eb); cbn; try reflexivity;
    rewrite <- Hm; reflexivity.
Qed.

Lemma SFcompare_None (a b : float) :
  SFcompare a b = None → a = S754_nan ∨ b = S754_nan.
Proof.
  destruct a, b; cbn; intros Hnone;
    first [discriminate Hnone | left; reflexivity | right; reflexivity].
Qed.

(** An element of [[0, 1]] passes the test of [checkValue]. *)
Lemma in_unit_interval_within (x : float) :
  in_unit_interval x = true → within (of_int 0) (of_int 1) x = true.
Proof.
  unfold in_unit_interval, within, fgt, SFleb. cbn [flt binary32_Scalar of_int].
  unfold SFltb.
  rewrite (SFcompare_antisym x (of_Z 1)), (SFcompare_antisym (of_Z 0) x).
  destruct (SFcompare x (of_Z 1)) as [[] |],
    (SFcompare (of_Z 0) x) as [[] |]; cbn; congruence.
Qed.

(** A number that is not in [[0, 1]] fails it. *)
Lemma not_in_unit_interval_outside (x : float) :
  x ≠ S754_nan → in_unit_interval x = false → outside_unit x.
Proof.
  intros Hnan.
  unfold in_unit_interval, outside_unit, fgt, SFleb.
  cbn [flt binary32_Scalar of_int]. unfold SFltb.
  rewrite (SFcompare_antisym x (of_Z 1)), (SFcompare_antisym (of_Z 0) x).
  destruct (SFcompare x (of_Z 1)) as [[] |] eqn:Hone;
    destruct (SFcompare (of_Z 0) x) as [[] |] eqn:Hzero;
    cbn; intros Hout; try discriminate Hout; auto;
    first [apply SFcompare_None in Hone as [Hx | Hx]
          | apply SFcompare_None in Hzero as [Hx | Hx]];
    first [contradiction | discriminate Hx].
Qed.

Lemma foldl_ext_in {A B} (f g : A → B → A) (l : list B) (a : A) :
  (∀ a b, f a b = g a b) → foldl f a l = foldl g a l.
Proof.
  intros Hfg. revert a. induction l as [| b l IH]; intros a; cbn;
    [reflexivity |].
  rewrite Hfg. apply IH.
Qed.

Lemma row_loss_cross_entropy_row (log : float → float) (ps ts : list float) :
  row_loss log ps ts = cross_entropy_row log ps ts.
Proof.
  unfold row_loss, cross_entropy_row. apply foldl_ext_in.
  intros sum [p t]. unfold fne. cbn [fst snd feq binary32_Scalar of_int].
  destruct (SFeqb t (of_Z 0)); reflexivity.
Qed.

Lemma row_by_row_loss_result (log : float → float) batch_size input_size
    (y_pred y_true : list float) :
  row_by_row_loss log batch_size input_size y_pred y_true
  = CategoricalCrossEntropy_result log batch_size input_size y_pred y_true.
Proof.
  unfold row_by_row_loss, CategoricalCrossEntropy_result,
    CategoricalCrossEntropy_rows.
  cbn [fdiv fadd fzero of_int binary32_Scalar]. do 2 f_equal.
  apply list_fmap_ext. intros i b Hb. apply row_loss_cross_entropy_row.
Qed.

End unit_interval_facts.

Section cross_entropy_claims.
Import cker spec binary32.



End cross_entropy_claims.

Section cross_entropy_runs.
Import cker spec binary32.





End cross_entropy_runs.

(** * Further properties of the kernels *)

Section kernel_properties.
Import cker spec.
Context {T : Type} `{Scalar T}.

(** X1.  On an array that holds at least [size] elements, [checkValue]
    returns whether each of the first [size] elements is neither above
    [max] nor below [min], and changes nothing; when [size] is zero or
    negative it returns true. *)
Theorem checkValue_is_forallb_within {St} (data : list T) size min max
    (st : St) :
  size ≤ Z.of_nat (length data) →
  checkValue data size min max st
  = (Ok (forallb (within min max) (take (Z.to_nat size) data)), st) ∧
  (size ≤ 0 → checkValue data size min max st = (Ok true, st)).
Proof.
  intros Hsize. split; [apply checkValue_take, Hsize |].
  intros Hle. rewrite checkValue_take by exact Hsize.
  replace (Z.to_nat size) with 0%nat by lia. reflexivity.
Qed.

(** X2.  When every one of the first [batch_size * input_size]
    predictions passes the range check, [CategoricalCrossEntropyGrad]
    returns, writes [-(yTrue[k] / max(yPred[k], 1e-20))] at every flat
    index [k] below [batch_size * input_size], and leaves the rest of
    the gradient buffer as it was. *)
Theorem CategoricalCrossEntropyGrad_writes_formula
    (y_pred y_true buf : list T) batch_size input_size :
  0 ≤ batch_size → 0 ≤ input_size →
  batch_size * input_size ≤ INT_MAX →
  batch_size * input_size ≤ Z.of_nat (length y_pred) →
  batch_size * input_size ≤ Z.of_nat (length y_true) →
  batch_size * input_size ≤ Z.of_nat (length buf) →
  forallb (within (of_int 0) (of_int 1))
    (take (Z.to_nat (batch_size * input_size)) y_pred) = true →
  returns (CategoricalCrossEntropyGrad y_pred y_true batch_size input_size)
    buf
    (λ _ grad,
       CategoricalCrossEntropyGrad_post (batch_size * input_size)
         y_pred y_true buf grad).
Proof. apply CategoricalCrossEntropyGrad_ok. Qed.

(** X3.  With no law of arithmetic assumed: when every prediction
    passes the range check, [CategoricalCrossEntropy] returns and
    changes [output[0]] only, whatever the batch size.  The value is
    the sum, in row order from [0.f], of the row losses, divided by
    the batch size; a row loss adds [-log(max(yPred, 1e-20)) * yTrue]
    in element order from [0.f] over the elements whose label is not
    zero. *)
Theorem CategoricalCrossEntropy_adds_row_losses (log : T → T)
    (y_pred y_true : list T) batch_size input_size (buf : list T) :
  0 ≤ batch_size → 0 ≤ input_size →
  batch_size * input_size ≤ INT_MAX →
  batch_size * input_size ≤ Z.of_nat (length y_pred) →
  batch_size * input_size ≤ Z.of_nat (length y_true) →
  (0 < length buf)%nat →
  forallb (within (of_int 0) (of_int 1))
    (take (Z.to_nat (batch_size * input_size)) y_pred) = true →
  CategoricalCrossEntropy log y_pred y_true batch_size input_size buf
  = (Ok tt,
     <[0%nat := CategoricalCrossEntropy_result log batch_size input_size
                  y_pred y_true]> buf).
Proof.
  intros Hb Hi Hmax Hp Ht Hbuf Hgood.
  destruct (Z_of_nat_complete batch_size Hb) as [B ->].
  destruct (Z_of_nat_complete input_size Hi) as [I ->].
  apply CategoricalCrossEntropy_ok_nat; try lia.
  replace (B * I)%nat with (Z.to_nat (Z.of_nat B * Z.of_nat I)) by lia.
  exact Hgood.
Qed.

End kernel_properties.

(** * Further properties of the training compiler *)

Section compiler_properties.
Import onert spec.
Context `{Collaborators}.

(** X8.  Given a first option object to alias, the constructor of
    [TrainingCompiler] changes nothing, whatever its outcome, and it
    returns exactly for a package of one model with at most one
    subgraph: it does not look at the options, and it accepts a model
    without subgraphs. *)
Theorem TrainingCompiler_new_reads_only training_info (w : World) :
  copts w ≠ [] →
  (TrainingCompiler_new training_info w).2 = w ∧
  (TrainingCompiler_new training_info w
   = (Ok {| _training_info := training_info |}, w)
   ↔ other_models (nnpkg w) = [] ∧
     (subgraphs_count (primary_model (nnpkg w)) ≤ 1)%nat).
Proof.
  intros Hcopts. split; [apply TrainingCompiler_new_world |]. split.
  - intros Hok.
    destruct (decide (other_models (nnpkg w) = [] ∧
                      (subgraphs_count (primary_model (nnpkg w)) ≤ 1)%nat))
      as [Hone | Hmany]; [exact Hone |].
    destruct (TrainingCompiler_new_rejects training_info w Hcopts)
      as (e & _ & Hthrow).
    + unfold model_count.
      destruct (other_models (nnpkg w)) as [| m l]; [| left; cbn; lia].
      right. apply Nat.nle_gt. intros Hle. apply Hmany. auto.
    + rewrite Hthrow in Hok. discriminate Hok.
  - intros [Hone Hsub]. apply TrainingCompiler_new_accepts; assumption.
Qed.

(** X9.  A null first option object gets past the constructor and is
    found by [compile], which throws "Empty compile option" before it
    changes anything. *)
Theorem compile_null_options training_info (w : World) :
  copts w !! 0%nat = Some None →
  other_models (nnpkg w) = [] →
  (subgraphs_count (primary_model (nnpkg w)) ≤ 1)%nat →
  (TrainingCompiler_new training_info ≫= compile) w
  = (Throw (runtime_error "Empty compile option"), w).
Proof.
  intros Hnull Hone Hsub.
  rewrite (bind_ok _ _ _ _ _
             (TrainingCompiler_new_accepts training_info w
                ltac:(intros Hnil; rewrite Hnil in Hnull; discriminate Hnull)
                Hone Hsub)).
  unfold compile. rewrite bind_run. change (get w) with (Ok w, w).
  cbv iota beta. unfold _options. rewrite Hnull. reflexivity.
Qed.

(** X10.  The mode check decides what [compile] does to the options:
    when it fails (profiling without the heterogeneous scheduler or
    without the "Dataflow" executor, or a minmax path without the
    "Linear" executor), [compile] throws a configuration error and
    changes nothing; when it passes, [compile] forces the internal
    options in the caller's option object and records that first, and
    a later exception undoes neither. *)
Theorem compile_mode_check_decides this (w : World) o :
  _options w = Some o →
  (mode_check o = false →
   ∃ e, e ∈ configuration_errors ∧ compile this w = (Throw e, w)) ∧
  (mode_check o = true →
   ∀ r w', compile this w = (r, w') → r ≠ Abort →
     _options w' = Some (forceInternalOptions o) ∧
     ∃ es, trace w' = trace w ++ EvForceInternalOptions :: es).
Proof.
  intros Ho. split.
  - apply compile_mode_check_fails, Ho.
  - intros Hmode r w' Hrun _.
    pose proof (compile_forces_options this w o Ho Hmode) as Hforced.
    rewrite Hrun in Hforced. exact Hforced.
Qed.

(** X11.  Whenever [compile] returns or throws, the other models of
    the package, the kernel builder, the subgraph indices of the
    primary model and the kind of graph behind each index are as they
    were, the instrumentation has only grown, and no option object
    other than the first has changed. *)
Theorem compile_keeps_frame this (w : World) r w' :
  compile this w = (r, w') → r ≠ Abort →
  frame w w' ∧ ∀ i : nat, i ≠ 0%nat → copts w' !! i = copts w !! i.
Proof.
  intros Hrun _. pose proof (compile_frame this w) as Hframe.
  rewrite Hrun in Hframe. exact Hframe.
Qed.

(** X12.  A package whose only model has no subgraph gets past the
    constructor; [compile] then forces the options, calls no pass, no
    converter and no lowering, and throws [std::out_of_range] when
    shape inference looks up the inferer of subgraph 0. *)
Theorem compile_empty_model_out_of_range training_info (w : World) o :
  _options w = Some o → mode_check o = true →
  other_models (nnpkg w) = [] →
  subgraphs (_model w) = ∅ →
  (TrainingCompiler_new training_info ≫= compile) w
  = (Throw out_of_range,
     set_options (forceInternalOptions o)
       (observe [EvForceInternalOptions] w)).
Proof.
  intros Ho Hmode Hone Hempty.
  rewrite (bind_ok _ _ _ _ _
             (TrainingCompiler_new_accepts training_info w
                ltac:(intros Hnil; unfold _options in Ho;
                      rewrite Hnil in Ho; discriminate Ho)
                Hone
                ltac:(unfold subgraphs_count; unfold _model in Hempty;
                      rewrite Hempty, map_size_empty; lia))).
  apply compile_no_subgraph; assumption.
Qed.

End compiler_properties.

(** * Further concrete runs *)

Section float_kernel_runs.
Import cker spec binary32.

(** [0] and [0.5] are within [[0, 1]]; [2] is not. *)
Lemma checkValue_is_forallb_within_witness :
  let data := [of_Z 0; of_scaled 1 (-1); of_Z 2] in
  checkValue data 2 (of_Z 0) (of_Z 1) tt = (Ok true, tt) ∧
  checkValue data 3 (of_Z 0) (of_Z 1) tt = (Ok false, tt) ∧
  checkValue data (-1) (of_Z 0) (of_Z 1) tt = (Ok true, tt).
Proof.
  intros data. split; [| split].
  - apply (proj1 (checkValue_is_forallb_within data 2 (of_Z 0) (of_Z 1) tt
                    ltac:(vm_compute; discriminate))).
  - apply (proj1 (checkValue_is_forallb_within data 3 (of_Z 0) (of_Z 1) tt
                    ltac:(vm_compute; discriminate))).
  - apply (proj2 (checkValue_is_forallb_within data (-1) (of_Z 0) (of_Z 1)
                    tt ltac:(vm_compute; discriminate))).
    vm_compute. discriminate.
Defined.

Lemma CategoricalCrossEntropyGrad_writes_formula_witness :
  let y_pred := [of_scaled 1 (-1); of_Z 1] in
  let y_true := [of_Z 0; of_Z 1] in
  let buf := [of_Z 7; of_Z 7; of_Z 7] in
  returns (CategoricalCrossEntropyGrad y_pred y_true 1 2) buf
    (λ _ grad, CategoricalCrossEntropyGrad_post 2 y_pred y_true buf grad).
Proof.
  intros y_pred y_true buf.
  apply (CategoricalCrossEntropyGrad_writes_formula y_pred y_true buf 1 2).
  - vm_compute. discriminate.
  - vm_compute. discriminate.
  - vm_compute. discriminate.
  - vm_compute. discriminate.
  - vm_compute. discriminate.
  - vm_compute. discriminate.
  - reflexivity.
Defined.

(** Two rows of two elements; the loss is [-(0.5 + 0.5) / 2]. *)
Lemma CategoricalCrossEntropy_adds_row_losses_witness :
  let y_pred := [of_scaled 1 (-1); of_scaled 1 (-1);
                 of_scaled 1 (-1); of_scaled 1 (-1)] in
  let y_true := [of_Z 1; of_Z 0; of_Z 0; of_Z 1] in
  CategoricalCrossEntropy (λ x, x) y_pred y_true 2 2 [of_Z 7; of_Z 7]
  = (Ok tt, [of_scaled (-1) (-1); of_Z 7]).
Proof.
  intros y_pred y_true.
  change [of_scaled (-1) (-1); of_Z 7]
    with (<[0%nat := CategoricalCrossEntropy_result (λ x, x) 2 2
                       y_pred y_true]> [of_Z 7; of_Z 7]).
  apply (CategoricalCrossEntropy_adds_row_losses (λ x, x) y_pred y_true 2 2
           [of_Z 7; of_Z 7]).
  - vm_compute. discriminate.
  - vm_compute. discriminate.
  - vm_compute. discriminate.
  - vm_compute. discriminate.
  - vm_compute. discriminate.
  - simpl. lia.
  - reflexivity.
Defined.

Lemma CategoricalCrossEntropy_negative_batch_size_witness :
  let y_pred := [of_scaled 1 (-1); of_scaled 1 (-1)] in
  let y_true := [of_Z 1; of_Z 0] in
  CategoricalCrossEntropy (λ x, x) y_pred y_true (-1) 2 [of_Z 7]
  = (Throw length_error, [of_Z 7]).
Proof.
  intros y_pred y_true.
  apply (CategoricalCrossEntropy_negative_batch_size (λ x, x) y_pred y_true
           (-1) 2 [of_Z 7]).
  - reflexivity.
  - vm_compute. split; discriminate.
  - vm_compute. discriminate.
  - reflexivity.
Defined.

Lemma CategoricalCrossEntropy_empty_batch_is_nan_witness :
  CategoricalCrossEntropy (λ x, x) [] [] 0 3 [of_Z 7; of_Z 7]
  = (Ok tt, [S754_nan; of_Z 7]).
Proof.
  apply (CategoricalCrossEntropy_empty_batch_is_nan (λ x, x) [] [] 3
           [of_Z 7; of_Z 7]).
  simpl. lia.
Defined.

Lemma CategoricalCrossEntropyGrad_nan_prediction_witness :
  let y_pred := [S754_nan; of_scaled 1 (-1)] in
  let y_true := [of_Z 1; of_Z 0] in
  returns (CategoricalCrossEntropyGrad y_pred y_true 1 2) [of_Z 7; of_Z 7]
    (λ _ grad, grad !! 0%nat = Some S754_nan).
Proof.
  intros y_pred y_true.
  apply (CategoricalCrossEntropyGrad_nan_prediction y_pred y_true
           [of_Z 7; of_Z 7] 1 2 0).
  - vm_compute. discriminate.
  - vm_compute. discriminate.
  - vm_compute. discriminate.
  - vm_compute. discriminate.
  - vm_compute. discriminate.
  - vm_compute. discriminate.
  - intros [| [| j]] x Hj Hlt Hx.
    + contradiction.
    + injection Hx as <-. reflexivity.
    + lia.
  - reflexivity.
  - reflexivity.
Defined.

Lemma MSE_empty_rows_are_nan_witness :
  let buf := [of_Z 7; of_Z 7; of_Z 7] in
  returns (MSE [2; 0] [] [2; 0] [] [2]) buf
    (λ _ out,
       length out = length buf ∧
       (∀ b : nat, Z.of_nat b < 2 → out !! b = Some S754_nan) ∧
       (∀ b : nat, 2 ≤ Z.of_nat b → out !! b = buf !! b)).
Proof.
  intros buf. apply (MSE_empty_rows_are_nan 2 [0] [] [] buf).
  - reflexivity.
  - vm_compute. discriminate.
Defined.

End float_kernel_runs.

Section compiler_further_runs.
Import onert spec fixture.
#[local] Existing Instance unit_IR.
#[local] Existing Instance idle.

Lemma TrainingCompiler_new_reads_only_witness :
  let w := world (model []) [] (options "Linear" true true "") in
  TrainingCompiler_new training_info w
  = (Ok {| _training_info := training_info |}, w).
Proof.
  intros w.
  apply (proj2 (TrainingCompiler_new_reads_only training_info w
                  ltac:(discriminate))).
  split; [reflexivity | vm_compute; lia].
Defined.

Lemma compile_null_options_witness :
  let w := {| nnpkg := {| primary_model := model [graph];
                          other_models := [] |};
              copts := [None];
              trace := [] |} in
  (TrainingCompiler_new training_info ≫= compile) w
  = (Throw (runtime_error "Empty compile option"), w).
Proof.
  intros w. apply (compile_null_options training_info w).
  - reflexivity.
  - reflexivity.
  - vm_compute. lia.
Defined.

Lemma compile_empty_model_out_of_range_witness :
  let o := options "Linear" false false "" in
  let w := world (model []) [] o in
  (TrainingCompiler_new training_info ≫= compile) w
  = (Throw out_of_range,
     {| nnpkg := nnpkg w; copts := [Some o];
        trace := [EvForceInternalOptions] |}).
Proof.
  intros o w.
  exact (compile_empty_model_out_of_range training_info w o
           eq_refl eq_refl eq_refl eq_refl).
Defined.

Lemma compile_success_indices_witness :
  let w := world (model [graph]) [] (options "Linear" false false "") in
  match compile this w with
  | (Ok artifact, _) =>
      dom (_tracing_ctx artifact) = dom (subgraphs (_model w)) ∧
      (∀ i j : nat, _tracing_ctx artifact !! i = Some j → j = i) ∧
      (∀ k, k ∈ dom (_executors artifact) → k.1 = 0%nat)
  | _ => False
  end.
Proof.
  intros w. pose proof (compile_success_indices this w) as Hreturns.
  destruct (compile this w) as [[artifact | e |] w'] eqn:Hrun.
  - apply (Hreturns artifact w' eq_refl).
  - vm_compute in Hrun. discriminate Hrun.
  - vm_compute in Hrun. discriminate Hrun.
Defined.

End compiler_further_runs.

Section faulty_runs.
Import onert spec fixture faulty.
#[local] Existing Instance unit_IR.
#[local] Existing Instance odd_output_fails.

(** Profiling with the "Linear" executor is refused and nothing
    changes; without profiling the scheduler is switched off by the
    forcing, and stays off when [OddOutputPass] throws. *)
Lemma compile_mode_check_decides_witness :
  (let w := world (model [graph]) [] (options "Linear" true true "") in
   ∃ e, e ∈ configuration_errors ∧ compile this w = (Throw e, w)) ∧
  (let o := options "Linear" true false "" in
   let w := world (model [graph]) [] o in
   _options (compile this w).2 = Some (options "Linear" false false "") ∧
   ∃ es, trace (compile this w).2
         = trace w ++ EvForceInternalOptions :: es).
Proof.
  split.
  - intros w.
    apply (proj1 (compile_mode_check_decides this w
                    (options "Linear" true true "") eq_refl)).
    reflexivity.
  - intros o w.
    change (options "Linear" false false "") with (forceInternalOptions o).
    apply (proj2 (compile_mode_check_decides this w o eq_refl) eq_refl
             (compile this w).1 (compile this w).2).
    + destruct (compile this w); reflexivity.
    + vm_compute. discriminate.
Defined.

Lemma compile_keeps_frame_witness :
  let w := world (model [graph]) [model [graph; graph]]
             (options "Linear" true false "") in
  frame w (compile this w).2 ∧
  ∀ i : nat, i ≠ 0%nat → copts (compile this w).2 !! i = copts w !! i.
Proof.
  intros w.
  apply (compile_keeps_frame this w (compile this w).1 (compile this w).2).
  - destruct (compile this w); reflexivity.
  - vm_compute. discriminate.
Defined.

(** [OddOutputPass] throws: operation 5 stays dropped and
    [UnusedOperandEliminationPass] does not run. *)
Lemma compile_pass_throws_witness :
  let o := options "Linear" true false "" in
  let w := world (model [graph]) [] o in
  compile this w
  = (Throw (runtime_error "OddOutputPass"),
     set_subgraph 0%nat
       (AGraph {| operations := {[ 0%nat := "Add" ]}; operands := tt |})
       (observe [EvPass ConstantOutputPass 0%nat; EvPass OddOutputPass 0%nat]
          (set_options (options "Linear" false false "")
             (observe [EvForceInternalOptions] w)))).
Proof.
  intros o w.
  refine (eq_trans
            (compile_pass_throws this w o 0%nat graph
               (runtime_error "OddOutputPass")
               {| operations := delete 5%nat (operations graph);
                  operands := tt |}
               [ConstantOutputPass; OddOutputPass]
               eq_refl eq_refl eq_refl eq_refl) _).
  vm_compute. reflexivity.
Defined.

End faulty_runs.

Section pipeline_runs.
Import onert spec fixture.
#[local] Existing Instance unit_IR.
#[local] Existing Instance idle.

Lemma compile_single_subgraph_pipeline_witness :
  let w := world (model [graph]) [] (options "Linear" false false "") in
  compile this w
  = (Ok {| _executors := {[ (0%nat, 0%nat) := tt ]};
           _tracing_ctx := {[ 0%nat := 0%nat ]} |},
     observe
       [EvForceInternalOptions;
        EvPass ConstantOutputPass 0; EvPass OddOutputPass 0;
        EvPass UnusedOperandEliminationPass 0;
        EvConvert 0 0; EvConvert 0 5;
        EvLower 0; EvInfer; EvValidate 0; EvExecutor 0] w).
Proof.
  intros w.
  refine (eq_trans
            (compile_single_subgraph_pipeline this w
               (options "Linear" false false "") graph graph
               [ConstantOutputPass; OddOutputPass;
                UnusedOperandEliminationPass]
               {| t_operations :=
                    {[ 0%nat := Replacement "Add";
                       5%nat := Replacement "Reshape" ]};
                  t_operands := tt |}
               (observe
                  [EvForceInternalOptions;
                   EvPass ConstantOutputPass 0; EvPass OddOutputPass 0;
                   EvPass UnusedOperandEliminationPass 0;
                   EvConvert 0 0; EvConvert 0 5] w)
               tt tt tt eq_refl eq_refl eq_refl eq_refl _ eq_refl eq_refl
               eq_refl eq_refl) _).
  - vm_compute. reflexivity.
  - vm_compute. reflexivity.
Defined.

End pipeline_runs.

Section conversion_runs.
Import onert spec fixture faulty.
#[local] Existing Instance unit_IR.
#[local] Existing Instance reshape_unsupported.

(** [Add] at index 0 is converted, [Reshape] at index 5 is not, and
    nothing is lowered. *)
Lemma compile_conversion_throws_witness :
  let w := world (model [graph]) [] (options "Linear" false false "") in
  compile this w
  = (Throw (runtime_error "Unsupported operation: Reshape"),
     observe
       [EvForceInternalOptions;
        EvPass ConstantOutputPass 0; EvPass OddOutputPass 0;
        EvPass UnusedOperandEliminationPass 0;
        EvConvert 0 0; EvConvert 0 5] w).
Proof.
  intros w.
  refine (compile_conversion_throws this w
            (options "Linear" false false "") graph graph
            [ConstantOutputPass; OddOutputPass;
             UnusedOperandEliminationPass]
            (runtime_error "Unsupported operation: Reshape") _
            eq_refl eq_refl eq_refl eq_refl _).
  vm_compute. reflexivity.
Defined.

End conversion_runs.
